(** * Insurance claim summariser: field extraction, raw block formatting,
      summary building and section formatting ([app.py]).

    The development is a shallow embedding of the pure core of [app.py]:
    [extract_field], [extract_and_format_raw_block], [extract_summary], the
    merge loop of the combined summary, the section rendering loop and the
    slides that [generate_pptx] builds.

    Characters are Unicode code points below 256 (type [ascii]); the
    classification functions below follow CPython for that range.  The two
    characters of the program's output literals that lie outside this range
    (the bullet and the rupee sign of the last recogniser) appear as the
    bytes of their UTF-8 encoding. *)

From Stdlib Require Import String Ascii NArith ZArith Bool Lia.
From Stdlib Require Import Floats.SpecFloat.
From stdpp Require Import base option list gmap strings fin_maps.

Local Open Scope string_scope.

(** ** Python's [str]: characters and string methods *)

Module Py.

Definition code (c : ascii) : N := N_of_ascii c.

Definition between (lo hi : N) (c : ascii) : bool :=
  (N.leb lo (code c) && N.leb (code c) hi)%bool.

Definition is_code (n : N) (c : ascii) : bool := N.eqb (code c) n.

(** [Py_UNICODE_ISSPACE]: used by [str.strip], [str.split] and [\s]. *)
Definition isspace (c : ascii) : bool :=
  between 9 13 c || between 28 32 c || is_code 133 c || is_code 160 c.

(** [Py_UNICODE_ISDECIMAL]: the class [\d]. *)
Definition isdecimal (c : ascii) : bool := between 48 57 c.

(** [str.isdigit] on one character: decimal digits and the superscripts
    one, two and three. *)
Definition isdigit (c : ascii) : bool :=
  isdecimal c || is_code 178 c || is_code 179 c || is_code 185 c.

(** [str.isalpha] on one character: general category L. *)
Definition isalpha (c : ascii) : bool :=
  between 65 90 c || between 97 122 c || is_code 170 c || is_code 181 c
  || is_code 186 c || between 192 214 c || between 216 246 c
  || between 248 255 c.

(** [Py_UNICODE_ISALNUM] or underscore: the class [\w]. *)
Definition isword (c : ascii) : bool :=
  isalpha c || isdigit c || between 188 190 c || is_code 95 c.

Definition shift_code (d : Z) (c : ascii) : ascii :=
  ascii_of_N (Z.to_N (Z.of_N (code c) + d)).

(** [str.lower] and [str.upper] on one character; a character whose
    counterpart lies outside the range is left as it is. *)
Definition lower_char (c : ascii) : ascii :=
  if between 65 90 c || between 192 214 c || between 216 222 c
  then shift_code 32 c else c.

Definition upper_char (c : ascii) : ascii :=
  if between 97 122 c || between 224 246 c || between 248 254 c
  then shift_code (-32) c else c.

Fixpoint lower (s : string) : string :=
  match s with
  | EmptyString => EmptyString
  | String c s' => String (lower_char c) (lower s')
  end.

Fixpoint forallb_str (p : ascii -> bool) (s : string) : bool :=
  match s with
  | EmptyString => true
  | String c s' => p c && forallb_str p s'
  end.

Fixpoint existsb_str (p : ascii -> bool) (s : string) : bool :=
  match s with
  | EmptyString => false
  | String c s' => p c || existsb_str p s'
  end.

(** [len(s)] *)
Definition len (s : string) : nat := String.length s.

(** Truth value of a string: [if s:] *)
Definition truthy (s : string) : bool :=
  match s with EmptyString => false | _ => true end.

(** [s.isdigit()] *)
Definition str_isdigit (s : string) : bool := truthy s && forallb_str isdigit s.

(** [s.lstrip(chars)], [s.rstrip(chars)], [s.strip(chars)] for a set of
    characters given by a predicate. *)
Fixpoint lstrip_by (p : ascii -> bool) (s : string) : string :=
  match s with
  | EmptyString => EmptyString
  | String c s' => if p c then lstrip_by p s' else s
  end.

Fixpoint rstrip_by (p : ascii -> bool) (s : string) : string :=
  match s with
  | EmptyString => EmptyString
  | String c s' =>
      match rstrip_by p s' with
      | EmptyString => if p c then EmptyString else String c EmptyString
      | t => String c t
      end
  end.

Definition strip_by (p : ascii -> bool) (s : string) : string :=
  rstrip_by p (lstrip_by p s).

(** [s.strip()] *)
Definition strip (s : string) : string := strip_by isspace s.

Fixpoint mem_char (c : ascii) (chars : string) : bool :=
  match chars with
  | EmptyString => false
  | String d chars' => Ascii.eqb c d || mem_char c chars'
  end.

(** [s.strip(chars)] *)
Definition strip_chars (chars s : string) : string :=
  strip_by (fun c => mem_char c chars) s.

(** [s.startswith(p)] *)
Definition startswith (s p : string) : bool := String.prefix p s.

(** [s[n:]] *)
Fixpoint drop (n : nat) (s : string) : string :=
  match n, s with
  | O, _ => s
  | S _, EmptyString => EmptyString
  | S n', String _ s' => drop n' s'
  end.

(** [s[:n]] *)
Fixpoint take (n : nat) (s : string) : string :=
  match n, s with
  | O, _ => EmptyString
  | S _, EmptyString => EmptyString
  | S n', String c s' => String c (take n' s')
  end.

(** [sub in s] *)
Fixpoint contains (sub s : string) : bool :=
  String.prefix sub s ||
  match s with
  | EmptyString => false
  | String _ s' => contains sub s'
  end.

(** [s.replace(old, new)] for a non-empty [old]: occurrences are replaced
    from left to right and do not overlap.  [skip] counts the characters of
    the occurrence being replaced that are still to be passed over. *)
Fixpoint replace_go (old new : string) (skip : nat) (s : string) : string :=
  match s with
  | EmptyString => EmptyString
  | String c s' =>
      match skip with
      | S k => replace_go old new k s'
      | O =>
          if String.prefix old s
          then new ++ replace_go old new (len old - 1) s'
          else String c (replace_go old new 0 s')
      end
  end.

Definition replace (old new s : string) : string := replace_go old new 0 s.

(** [sep.join(parts)] *)
Fixpoint join (sep : string) (parts : list string) : string :=
  match parts with
  | [] => EmptyString
  | [p] => p
  | p :: rest => p ++ sep ++ join sep rest
  end.

(** [s.split()]: the maximal runs of characters that are not white space.
    [cur] is the word being read, in reverse. *)
Fixpoint rev_str (acc s : string) : string :=
  match s with
  | EmptyString => acc
  | String c s' => rev_str (String c acc) s'
  end.

Definition flush (cur : string) (words : list string) : list string :=
  match cur with
  | EmptyString => words
  | _ => rev_str EmptyString cur :: words
  end.

Fixpoint split_go (cur : string) (s : string) : list string :=
  match s with
  | EmptyString => flush cur []
  | String c s' =>
      if isspace c then flush cur (split_go EmptyString s')
      else split_go (String c cur) s'
  end.

Definition split (s : string) : list string := split_go EmptyString s.

(** [s.splitlines()]: the line boundaries below 256 are LF, VT, FF, CR,
    FS, GS, RS and NEL, and CR LF counts as one boundary; the text after
    the last boundary is a line only when it is not empty. *)
Definition islinebreak (c : ascii) : bool :=
  between 10 13 c || between 28 30 c || is_code 133 c.

Fixpoint splitlines_go (cur : string) (s : string) : list string :=
  match s with
  | EmptyString => flush cur []
  | String c s' =>
      if islinebreak c then
        rev_str EmptyString cur ::
        match s' with
        | String d s'' =>
            if is_code 13 c && is_code 10 d
            then splitlines_go EmptyString s''
            else splitlines_go EmptyString s'
        | EmptyString => []
        end
      else splitlines_go (String c cur) s'
  end.

Definition splitlines (s : string) : list string := splitlines_go EmptyString s.

End Py.

(** ** Python's [re]: a backtracking matcher

    The fragment of the pattern syntax the program uses: literals, [.],
    character sets with the classes [\d], [\s] and [\w], sequence,
    alternation, greedy and lazy bounded repetition, capturing groups
    (numbered by their opening parenthesis), [^], [$] and [\b], under the
    flags IGNORECASE and DOTALL.  A pattern is given as its syntax tree: the
    text of a pattern that does not compile, on which [re.search] raises
    [re.error], has no counterpart here, and nothing below says when the
    program raises on such a configuration. *)

Module Re.

Inductive cls : Type :=
| CDigit                   (* \d *)
| CSpace                   (* \s *)
| CWord                    (* \w *)
| CChar (c : ascii)        (* one character *)
| CRange (a b : ascii).    (* a-b *)

Inductive regex : Type :=
| Eps
| Lit (s : string)                     (* literal characters *)
| Dot                                  (* .  *)
| In (items : list cls)                (* [...]  *)
| NotIn (items : list cls)             (* [^...] *)
| Seq (r1 r2 : regex)
| Alt (r1 r2 : regex)                  (* r1|r2 *)
| Rep (greedy : bool) (lo : nat) (hi : option nat) (r : regex)
| Grp (r : regex)                      (* (r), capturing *)
| Bol                                  (* ^  *)
| Eol                                  (* $  *)
| WordB.                               (* \b *)

Record flags : Type := { ignorecase : bool; dotall : bool }.

Definition no_flags : flags := {| ignorecase := false; dotall := false |}.
Definition IGNORECASE : flags := {| ignorecase := true; dotall := false |}.
Definition IGNORECASE_DOTALL : flags := {| ignorecase := true; dotall := true |}.

(** The state of a match attempt: the position reached, the character
    before it, the text from it on, and the spans of the groups closed so
    far (the most recent first). *)
Record mstate : Type :=
  { pos : nat; prv : option ascii; rst : string;
    caps : list (nat * (nat * nat)) }.

Definition cont : Type := mstate -> option mstate.
Definition matcher_t : Type := mstate -> cont -> option mstate.

Definition in_cls (i : cls) (c : ascii) : bool :=
  match i with
  | CDigit => Py.isdecimal c
  | CSpace => Py.isspace c
  | CWord => Py.isword c
  | CChar d => Ascii.eqb c d
  | CRange a b => Py.between (Py.code a) (Py.code b) c
  end.

Definition in_set (items : list cls) (c : ascii) : bool :=
  existsb (fun i => in_cls i c) items.

(** Under IGNORECASE a set holds a character when it holds one of its case
    variants. *)
Definition in_set_fl (fl : flags) (items : list cls) (c : ascii) : bool :=
  if ignorecase fl
  then in_set items c || in_set items (Py.lower_char c)
       || in_set items (Py.upper_char c)
  else in_set items c.

Definition eq_char_fl (fl : flags) (p c : ascii) : bool :=
  if ignorecase fl
  then Ascii.eqb (Py.lower_char p) (Py.lower_char c)
  else Ascii.eqb p c.

(** Consume one character that satisfies [p]. *)
Definition step_char (p : ascii -> bool) : matcher_t := fun st k =>
  match rst st with
  | String c s' =>
      if p c
      then k {| pos := S (pos st); prv := Some c; rst := s'; caps := caps st |}
      else None
  | EmptyString => None
  end.

Fixpoint lit (fl : flags) (s : string) : matcher_t := fun st k =>
  match s with
  | EmptyString => k st
  | String p s' => step_char (eq_char_fl fl p) st (fun st' => lit fl s' st' k)
  end.

Definition is_word_opt (o : option ascii) : bool :=
  match o with Some c => Py.isword c | None => false end.

Definition next_char (st : mstate) : option ascii :=
  match rst st with String c _ => Some c | EmptyString => None end.

(** [\b]: exactly one of the two neighbours is a word character. *)
Definition at_word_boundary (st : mstate) : bool :=
  xorb (is_word_opt (prv st)) (is_word_opt (next_char st)).

(** [$] without MULTILINE: the end of the text, or just before a line feed
    that ends the text. *)
Definition at_end (st : mstate) : bool :=
  match rst st with
  | EmptyString => true
  | String c EmptyString => Py.is_code 10 c
  | _ => false
  end.

Definition guard (b : mstate -> bool) : matcher_t := fun st k =>
  if b st then k st else None.

Definition orelse (a b : option mstate) : option mstate :=
  match a with Some x => Some x | None => b end.

(** [n] mandatory iterations. *)
Fixpoint times (m : matcher_t) (n : nat) : matcher_t := fun st k =>
  match n with
  | O => k st
  | S n' => m st (fun st' => times m n' st' k)
  end.

Definition dec_opt (hi : option nat) : option nat :=
  match hi with Some n => Some (Nat.pred n) | None => None end.

Definition exhausted (hi : option nat) : bool :=
  match hi with Some O => true | _ => false end.

(** The optional iterations of a repetition, at most [hi] of them.  An
    iteration that consumes nothing ends the loop.  [fuel] bounds the
    number of iterations that consume something and is set to the length
    of the remaining text, plus one. *)
Fixpoint loop (m : matcher_t) (greedy : bool) (fuel : nat) (hi : option nat)
  : matcher_t := fun st k =>
  match fuel with
  | O => k st
  | S fuel' =>
      if exhausted hi then k st
      else
        let more :=
          m st (fun st' =>
                  if Nat.ltb (pos st) (pos st')
                  then loop m greedy fuel' (dec_opt hi) st' k
                  else k st') in
        if greedy then orelse more (k st) else orelse (k st) more
  end.

Definition sub_opt (hi : option nat) (lo : nat) : option nat :=
  match hi with Some n => Some (n - lo) | None => None end.

Fixpoint ngroups (r : regex) : nat :=
  match r with
  | Seq r1 r2 | Alt r1 r2 => ngroups r1 + ngroups r2
  | Rep _ _ _ r1 => ngroups r1
  | Grp r1 => S (ngroups r1)
  | _ => 0
  end.

Definition close_group (i start : nat) (st : mstate) : mstate :=
  {| pos := pos st; prv := prv st; rst := rst st;
     caps := (i, (start, pos st)) :: caps st |}.

(** [matcher fl r base]: match [r], whose groups are numbered from
    [base + 1], and pass the state reached to the continuation; the
    alternatives are explored in Python's order. *)
Fixpoint matcher (fl : flags) (r : regex) (base : nat) : matcher_t :=
  match r with
  | Eps => fun st k => k st
  | Lit s => lit fl s
  | Dot => step_char (fun c => dotall fl || negb (Py.is_code 10 c))
  | In items => step_char (in_set_fl fl items)
  | NotIn items => step_char (fun c => negb (in_set_fl fl items c))
  | Seq r1 r2 => fun st k =>
      matcher fl r1 base st
        (fun st' => matcher fl r2 (base + ngroups r1) st' k)
  | Alt r1 r2 => fun st k =>
      orelse (matcher fl r1 base st k)
             (matcher fl r2 (base + ngroups r1) st k)
  | Rep greedy lo hi r1 => fun st k =>
      times (matcher fl r1 base) lo st
        (fun st' =>
           loop (matcher fl r1 base) greedy (S (Py.len (rst st')))
                (sub_opt hi lo) st' k)
  | Grp r1 => fun st k =>
      matcher fl r1 (S base) st
        (fun st' => k (close_group (S base) (pos st) st'))
  | Bol => guard (fun st => Nat.eqb (pos st) 0)
  | Eol => guard at_end
  | WordB => guard at_word_boundary
  end.

(** A match object: the span of the whole match, [group(0)] and
    [groups()], where a group that took no part in the match is [None]. *)
Record Match : Type :=
  { m_start : nat; m_end : nat; group0 : string;
    groups : list (option string) }.

Definition slice (text : string) (a b : nat) : string :=
  Py.take (b - a) (Py.drop a text).

Fixpoint find_cap (i : nat) (cs : list (nat * (nat * nat))) : option (nat * nat) :=
  match cs with
  | [] => None
  | (j, span) :: cs' => if Nat.eqb i j then Some span else find_cap i cs'
  end.

Definition group_text (text : string) (cs : list (nat * (nat * nat))) (i : nat)
  : option string :=
  match find_cap i cs with
  | Some (a, b) => Some (slice text a b)
  | None => None
  end.

Definition mk_match (r : regex) (text : string) (start : nat) (st : mstate)
  : Match :=
  {| m_start := start; m_end := pos st;
     group0 := slice text start (pos st);
     groups := map (fun i => group_text text (caps st) (S i))
                   (seq 0 (ngroups r)) |}.

(** One attempt, at the position [p] of [text]. *)
Definition attempt (fl : flags) (r : regex) (text : string)
  (p : nat) (before : option ascii) (rest : string) : option Match :=
  match matcher fl r 0 {| pos := p; prv := before; rst := rest; caps := [] |}
          Some with
  | Some st => Some (mk_match r text p st)
  | None => None
  end.

(** The leftmost match at or after [p]. *)
Fixpoint scan (fl : flags) (r : regex) (text : string)
  (p : nat) (before : option ascii) (rest : string) : option Match :=
  match attempt fl r text p before rest with
  | Some m => Some m
  | None =>
      match rest with
      | String c rest' => scan fl r text (S p) (Some c) rest'
      | EmptyString => None
      end
  end.

(** [re.search(r, text, fl)] *)
Definition search (fl : flags) (r : regex) (text : string) : option Match :=
  scan fl r text 0 None text.

(** [re.match(r, text, fl)] *)
Definition match_ (fl : flags) (r : regex) (text : string) : option Match :=
  attempt fl r text 0 None text.

(** Iteration over the successive matches, as [re.sub] and [re.findall]
    do it: the text is read once; [skip] counts the characters of the
    current match still to be passed over; a new attempt starts where the
    previous match ended.  [emit] turns a match into output, [keep] a
    character outside the matches. *)
Section Matches.
Context {A : Type} (fl : flags) (r : regex) (text : string).
Context (emit : Match -> A -> A) (keep : ascii -> A -> A) (stop : A).

Fixpoint walk (skip p : nat) (before : option ascii) (rest : string) : A :=
  match skip with
  | S k =>
      match rest with
      | String c rest' => walk k (S p) (Some c) rest'
      | EmptyString => stop
      end
  | O =>
      match attempt fl r text p before rest with
      | Some m =>
          emit m
            match rest with
            | String c rest' =>
                if Nat.eqb (m_end m) p
                then keep c (walk 0 (S p) (Some c) rest')
                else walk (m_end m - p - 1) (S p) (Some c) rest'
            | EmptyString => stop
            end
      | None =>
          match rest with
          | String c rest' => keep c (walk 0 (S p) (Some c) rest')
          | EmptyString => stop
          end
      end
  end.

End Matches.

(** A replacement template: literal text and references [\n]. *)
Inductive tmpl : Type :=
| TLit (s : string)
| TGrp (n : nat).

Definition expand1 (m : Match) (t : tmpl) : string :=
  match t with
  | TLit s => s
  | TGrp n =>
      match nth_error (groups m) (n - 1) with
      | Some (Some g) => g
      | _ => EmptyString
      end
  end.

Definition expand (repl : list tmpl) (m : Match) : string :=
  fold_right (fun t acc => expand1 m t ++ acc) EmptyString repl.

(** [re.sub(r, repl, text, flags=fl)] *)
Definition sub (fl : flags) (r : regex) (repl : list tmpl) (text : string)
  : string :=
  walk fl r text (fun m out => expand repl m ++ out) String EmptyString
       0 0 None text.

Definition unNone (o : option string) : string :=
  match o with Some s => s | None => EmptyString end.

(** [re.findall(r, text, fl)] for a pattern with two groups or more: the
    list of the tuples of groups. *)
Definition findall (fl : flags) (r : regex) (text : string)
  : list (list string) :=
  walk fl r text (fun m out => map unNone (groups m) :: out) (fun _ out => out)
       [] 0 0 None text.

(** [re.split(r, text, maxsplit=1)[0]]: the text before the first match,
    the whole text when there is none. *)
Definition split_head (fl : flags) (r : regex) (text : string) : string :=
  match search fl r text with
  | Some m => Py.take (m_start m) text
  | None => text
  end.

(** Abbreviations of the pattern syntax. *)
Definition star (r : regex) : regex := Rep true 0 None r.            (* r*  *)
Definition plus (r : regex) : regex := Rep true 1 None r.            (* r+  *)
Definition opt (r : regex) : regex := Rep true 0 (Some 1) r.         (* r?  *)
Definition lazy_star (r : regex) : regex := Rep false 0 None r.      (* r*? *)
Definition lazy_plus (r : regex) : regex := Rep false 1 None r.      (* r+? *)
Definition upto (lo hi : nat) (r : regex) : regex := Rep true lo (Some hi) r.
Definition atleast (lo : nat) (r : regex) : regex := Rep true lo None r.

Definition seqs (rs : list regex) : regex := fold_right Seq Eps rs.

Fixpoint alts (rs : list regex) : regex :=
  match rs with
  | [] => NotIn []   (* never used on the empty list *)
  | [r] => r
  | r :: rs' => Alt r (alts rs')
  end.

Definition digit : regex := In [CDigit].
Definition space : regex := In [CSpace].
Definition word : regex := In [CWord].

End Re.

(** ** Python's [float] and [int], and the format [:,.0f]

    A [float] is an IEEE 754 binary64 number, here a [spec_float] with 53
    bits of precision and the operations of the specification of the
    Standard Library.  A function that can raise returns [None] when it
    does. *)

Module Num.

Definition prec : Z := 53.
Definition emax : Z := 1024.

Definition zero : spec_float := S754_zero false.

(** [a + b] on floats *)
Definition add (a b : spec_float) : spec_float := SFadd prec emax a b.

(** [a > 0] *)
Definition is_positive (a : spec_float) : bool := SFltb zero a.

Definition digit_value (c : ascii) : N := (Py.code c - 48)%N.

(** A run of decimal digits and what follows it; [n] is the value read so
    far and [k] the number of digits. *)
Fixpoint read_digits (n : N) (k : nat) (s : string) : N * nat * string :=
  match s with
  | String c s' =>
      if Py.isdecimal c
      then read_digits (10 * n + digit_value c)%N (S k) s'
      else (n, k, s)
  | EmptyString => (n, k, s)
  end.

(** The binary64 number nearest to [n / 10^k], ties to even. *)
Definition of_decimal (n : N) (k : nat) : spec_float :=
  match n with
  | N0 => zero
  | Npos _ =>
      let '(q, e, l) :=
        SFdiv_core_binary prec emax (Z.of_N n) 0 (10 ^ Z.of_nat k)%Z 0 in
      binary_round_aux prec emax false q e l
  end.

(** [float(s)] for the numerals this program passes to it: digits with an
    optional point, at least one digit in all, white space around them
    ignored.  On any other text the result is [None] (ValueError). *)
Definition float (s : string) : option spec_float :=
  let '(n, k, rest) := read_digits 0 0 (Py.strip s) in
  match rest with
  | EmptyString => if Nat.eqb k 0 then None else Some (of_decimal n 0)
  | String c rest' =>
      if Ascii.eqb c "." then
        let '(n', k', rest'') := read_digits n 0 rest' in
        match rest'' with
        | EmptyString =>
            if Nat.eqb (k + k') 0 then None else Some (of_decimal n' k')
        | _ => None
        end
      else None
  end.

(** [int(x)]: the integer part; [None] on an infinity (OverflowError) and
    on a NaN (ValueError). *)
Definition int (x : spec_float) : option Z :=
  match x with
  | S754_zero _ => Some 0%Z
  | S754_finite s m e =>
      let a := match e with
               | Zneg p => Z.shiftr (Zpos m) (Zpos p)
               | _ => Z.shiftl (Zpos m) e
               end in
      Some (if s then Z.opp a else a)
  | _ => None
  end.

(** The integer nearest to [m * 2^e], ties to even. *)
Definition round_half_even (m : positive) (e : Z) : N :=
  match e with
  | Zneg p =>
      let q := N.shiftr (Npos m) (Npos p) in
      let r := N.land (Npos m) (N.ones (Npos p)) in
      let half := N.shiftl 1 (Npos p - 1) in
      match N.compare r half with
      | Lt => q
      | Gt => N.succ q
      | Eq => if N.even q then q else N.succ q
      end
  | _ => N.shiftl (Npos m) (Z.to_N e)
  end.

(** The decimal digits of [n], the most significant first. *)
Fixpoint digits_go (fuel : nat) (n : N) (acc : list ascii) : list ascii :=
  match fuel with
  | O => acc
  | S fuel' =>
      let d := ascii_of_N (48 + n mod 10) in
      if N.ltb n 10 then d :: acc else digits_go fuel' (n / 10)%N (d :: acc)
  end.

Definition digits (n : N) : list ascii := digits_go (S (N.size_nat n)) n [].

(** Thousands separators: a comma before every digit that has a multiple
    of three digits from it to the end. *)
Fixpoint group_digits (ds : list ascii) : string :=
  match ds with
  | [] => EmptyString
  | d :: ds' =>
      String d
        (if negb (Nat.eqb (length ds') 0) && Nat.eqb (length ds' mod 3) 0
         then String "," (group_digits ds')
         else group_digits ds')
  end.

Definition sign_prefix (s : bool) : string := if s then "-" else "".

(** [f"{n:,}"] for a natural number *)
Definition format_nat (n : N) : string := group_digits (digits n).

(** [f"{x:,.0f}"] for a float *)
Definition format_f0 (x : spec_float) : string :=
  match x with
  | S754_zero s => sign_prefix s ++ "0"
  | S754_finite s m e => sign_prefix s ++ format_nat (round_half_even m e)
  | S754_infinity s => sign_prefix s ++ "inf"
  | S754_nan => "nan"
  end.

(** [f"{n:,.0f}"] for an integer: the integer is converted to the nearest
    float first; [None] when it is too large for one (OverflowError). *)
Definition format_int_f0 (n : Z) : option string :=
  match binary_normalize prec emax n 0 false with
  | S754_infinity _ => None
  | x => Some (format_f0 x)
  end.

End Num.

(** ** The program *)

Import Re.

Definition LF : string := String (ascii_of_N 10) EmptyString.
Definition quote_char : ascii := ascii_of_N 34.
Definition QUOTE : string := String quote_char EmptyString.
Definition CR : string := String (ascii_of_N 13) EmptyString.

(** *** [extract_field] *)

(** [\s+] *)
Definition ws_run : regex := plus space.

(** [re.sub(r"\s+", " ", s)] *)
Definition collapse_spaces (s : string) : string :=
  Re.sub no_flags ws_run [TLit " "] s.

(** The pattern of the labels of a following field:
    [\b(Branch|Date|...|Occupation)\b] *)
Definition next_label : regex :=
  seqs [WordB;
        Grp (alts (map Lit
          ["Branch"; "Date"; "Note"; "Code"; "Signature"; "Time"; "No.";
           "Number"; "Claim"; "Policy"; "Name"; "Gender"; "Age"; "Address";
           "Email"; "Mobile"; "Contact"; "Phone"; "Relationship";
           "Occupation"]));
        WordB].

Definition stoplist : list string :=
  ["of"; "the"; "of the"; "name"; "aadhar holder"; "n"; "claim"; "-";
   "not mentioned"; "rs"; "no"; "number"; "date"; "place"; "contact";
   "address"; "gender"; "age"; "mobile"; "email"; "phone"; "details";
   "birth"; "ion"; "occu"; "na"; "nil"].

(** [x in xs] for strings *)
Definition str_in (x : string) (xs : list string) : bool :=
  existsb (String.eqb x) xs.

(** The value of [clean_value] when the tests start (lines 64 to 70). *)
Definition clean_group (group : string) : string :=
  Py.strip
    (Re.split_head no_flags next_label (collapse_spaces (Py.strip group))).

(** What the body of the loop over the groups does with a candidate. *)
Inductive verdict : Type :=
| Continue
| Return (value : string).

(** The three tests on [clean_value] (lines 71 to 81). *)
Definition judge (clean_value : string) : verdict :=
  if str_in (Py.lower clean_value) stoplist
     || Nat.ltb (Py.len (Py.strip clean_value)) 3
  then Continue
  else if String.eqb (Py.lower clean_value) "na"
  then Return "NA"
  else if Nat.ltb (Py.len clean_value) 5
          && negb (Py.existsb_str Py.isdigit clean_value)
          && negb (Py.existsb_str Py.isalpha clean_value)
  then Continue
  else Return clean_value.

(** The loop over [match.groups()]: the value returned from inside the
    loop, [None] when the loop runs to its end. *)
Fixpoint scan_groups (gs : list (option string)) : option string :=
  match gs with
  | [] => None
  | Some group :: gs' =>
      if Py.truthy group then
        match judge (clean_group group) with
        | Return value => Some value
        | Continue => scan_groups gs'
        end
      else scan_groups gs'
  | None :: gs' => scan_groups gs'
  end.

(** What is returned once a pattern has matched (lines 61 to 83). *)
Definition on_match (m : Match) : string :=
  match scan_groups (groups m) with
  | Some value => value
  | None => collapse_spaces (Py.strip (group0 m))
  end.

Fixpoint extract_field (text : string) (patterns : list regex) : string :=
  match patterns with
  | [] => ""
  | pattern :: patterns' =>
      match Re.search IGNORECASE_DOTALL pattern text with
      | Some m => on_match m
      | None => extract_field text patterns'
      end
  end.

(** *** [extract_and_format_raw_block] *)

(** [.*[\(\,:\-]$] *)
Definition open_ended : regex :=
  seqs [star Dot; In [CChar "("; CChar ","; CChar ":"; CChar "-"]; Eol].

(** One turn of the loop that joins wrapped lines; the state is
    [(fixed_lines, buffer)]. *)
Definition join_step (st : list string * string) (line : string)
  : list string * string :=
  let '(fixed_lines, buffer) := st in
  let line := Py.strip line in
  if negb (Py.truthy line) then st
  else if Py.truthy buffer then
    if bool_decide (is_Some (Re.match_ no_flags open_ended buffer))
       || Nat.ltb (length (Py.split buffer)) 3
    then (fixed_lines, buffer ++ " " ++ line)
    else ((fixed_lines ++ [buffer])%list, line)
  else (fixed_lines, line).

Definition fix_lines (field_value : string) : list string :=
  let '(fixed_lines, buffer) :=
    fold_left join_step (Py.splitlines field_value) ([], "") in
  if Py.truthy buffer then (fixed_lines ++ [buffer])%list else fixed_lines.

(** A closing quotation mark, a line feed amid optional white space, and
    an opening quotation mark (written QUOTE below): [QUOTE\s*\n\s*QUOTE];
    and [\s{2,}] *)
Definition quote_break : regex :=
  seqs [Lit QUOTE; star space; Lit LF; star space; Lit QUOTE].
Definition ws_run2 : regex := atleast 2 space.

(** The text the recognisers work on (lines 95 to 119). *)
Definition normalise (field_value : string) : string :=
  let field_value := Py.join LF (fix_lines field_value) in
  let field_value := Py.replace "Replace- ment" "Replacement" field_value in
  let field_value := Re.sub no_flags quote_break [TLit " "] field_value in
  Py.strip (Re.sub no_flags ws_run2 [TLit " "] field_value).

(** [[\d,]+(?:\.\d{1,2})?] *)
Definition amount : regex :=
  Seq (plus (In [CDigit; CChar ","])) (opt (Seq (Lit ".") (upto 1 2 digit))).

(** [[A-Za-z0-9(),\s\-\/\\.&]] *)
Definition desc_char : regex :=
  In [CRange "A" "Z"; CRange "a" "z"; CRange "0" "9"; CChar "("; CChar ")";
      CChar ","; CSpace; CChar "-"; CChar "/"; CChar "\"; CChar "."; CChar "&"].

(** [[A-Za-z0-9\s\-\.]] *)
Definition name_char : regex :=
  In [CRange "A" "Z"; CRange "a" "z"; CRange "0" "9"; CSpace; CChar "-";
      CChar "."].

(** [(Tab\.|Cap\.|Syp\.|Inj\.|Oint\.|Cream\.)] *)
Definition dose_form : regex :=
  Grp (alts (map Lit ["Tab."; "Cap."; "Syp."; "Inj."; "Oint."; "Cream."])).

(** A character outside the range of the model: the rupee sign of two
    patterns; it matches no character of a text. *)
Definition rupee : regex := In [].

(** [(\d+)\s*.*?\s*QUOTE([^QUOTE]*?)QUOTE.*?([\d,]+(?:\.\d{1,2})?)\b] *)
Definition pattern_bill_items : regex :=
  seqs [Grp (plus digit); star space; lazy_star Dot; star space; Lit QUOTE;
        Grp (lazy_star (NotIn [CChar quote_char])); Lit QUOTE; lazy_star Dot;
        Grp amount; WordB].

(** [([A-Za-z0-9(),\s\-\/\\.&]+?)\s{2,}(Rs\.?\s*|\₹?)\s*(\d{1,3}(?:,\d{3})*(?:\.\d{1,2})?)\b] *)
Definition pattern_estimate_lines : regex :=
  seqs [Grp (lazy_plus desc_char); atleast 2 space;
        Grp (Alt (seqs [Lit "Rs"; opt (Lit "."); star space]) (opt rupee));
        star space;
        Grp (seqs [upto 1 3 digit;
                   star (Seq (Lit ",") (upto 3 3 digit));
                   opt (Seq (Lit ".") (upto 1 2 digit))]);
        WordB].

(** [Total Repair Cost[:\s₹Rs\.]*[\d,]+] *)
Definition total_repair_cost : regex :=
  seqs [Lit "Total Repair Cost";
        star (In [CChar ":"; CSpace; CChar "R"; CChar "s"; CChar "."]);
        plus (In [CDigit; CChar ","])].

(** [(\d+)\s+([A-Za-z0-9(),\s\-\/\\.&]+?)\s+(\d+)\s+([\d,]+)] *)
Definition pattern_motor_repair : regex :=
  seqs [Grp (plus digit); plus space; Grp (lazy_plus desc_char); plus space;
        Grp (plus digit); plus space; Grp (plus (In [CDigit; CChar ","]))].

(** [(\d+)\s+(Tab\.|...)\s+([A-Za-z0-9\s\-\.]+?)\s+\d+\s+\d+\s+([\d,]+(?:\.\d{1,2})?)] *)
Definition pattern_pharmacy_sn_amt : regex :=
  seqs [Grp (plus digit); plus space; dose_form; plus space;
        Grp (lazy_plus name_char); plus space; plus digit; plus space;
        plus digit; plus space; Grp amount].

(** [([A-Za-z0-9\s,()\/\-]+?)\s*:\s*Rs\.?\s*([\d,]+(?:\.\d{1,2})?)] *)
Definition pattern_simple_desc_amount : regex :=
  seqs [Grp (lazy_plus
               (In [CRange "A" "Z"; CRange "a" "z"; CRange "0" "9"; CSpace;
                    CChar ","; CChar "("; CChar ")"; CChar "/"; CChar "-"]));
        star space; Lit ":"; star space; Lit "Rs"; opt (Lit "."); star space;
        Grp amount].

(** [(Tab\.|...)\s+([A-Za-z0-9\s\-\.]+):\s*Rs\.?\s*([\d,]+(?:\.\d{1,2})?)] *)
Definition pattern_fallback_meds : regex :=
  seqs [dose_form; plus space; Grp (plus name_char); Lit ":"; star space;
        Lit "Rs"; opt (Lit "."); star space; Grp amount].

(** The accumulators of a recogniser's loop: [formatted] and [total]. *)
Definition tally : Type := (string * spec_float)%type.

(** [amt_clean.replace('.', '').isdigit()], where [amt_clean] is [amt]
    without its commas *)
Definition numeric (amt : string) : bool :=
  Py.str_isdigit (Py.replace "." "" (Py.replace "," "" amt)).

(** The body shared by the loops of the six recognisers: when the amount
    is numeric, the line of the row (built from the formatted amount) is
    appended and the amount added to the total. *)
Definition add_item (amt : string) (line : string -> string) (acc : tally)
  : option tally :=
  let '(formatted, total) := acc in
  if numeric amt then
    amount_num ← Num.float (Py.replace "," "" amt);
    Some (formatted ++ line (Num.format_f0 amount_num),
          Num.add total amount_num)
  else Some acc.

Fixpoint for_rows (body : list string -> tally -> option tally)
  (rows : list (list string)) (acc : tally) : option tally :=
  match rows with
  | [] => Some acc
  | row :: rows' => acc' ← body row acc; for_rows body rows' acc'
  end.

(** When [total > 0], the line of the total, [label] and then the total in
    the format [:,.0f], is appended; [formatted] is returned. *)
Definition with_total (label : string) (acc : tally) : string :=
  let '(formatted, total) := acc in
  if Num.is_positive total then formatted ++ label ++ Num.format_f0 total
  else formatted.

Definition recognise (body : list string -> tally -> option tally)
  (label : string) (rows : list (list string)) : option string :=
  acc ← for_rows body rows ("", Num.zero); Some (with_total label acc).

Definition bill_row (row : list string) (acc : tally) : option tally :=
  match row with
  | [s_no; desc; amt] =>
      add_item amt (fun a => "- " ++ Py.strip desc ++ ": Rs. " ++ a ++ LF) acc
  | _ => None
  end.

Definition estimate_row (row : list string) (acc : tally) : option tally :=
  match row with
  | [desc; _; amt] =>
      add_item amt (fun a => "- " ++ Py.strip desc ++ ": Rs. " ++ a ++ LF) acc
  | _ => None
  end.

Definition motor_row (row : list string) (acc : tally) : option tally :=
  match row with
  | [num; desc; qty; amt] =>
      add_item amt
        (fun a => num ++ ". " ++ Py.strip desc ++ " - Qty: " ++ qty
                  ++ ", Cost: Rs. " ++ a ++ LF) acc
  | _ => None
  end.

Definition pharmacy_row (row : list string) (acc : tally) : option tally :=
  match row with
  | [s_no; form; name; amt] =>
      add_item amt
        (fun a => s_no ++ ". " ++ (form ++ " " ++ Py.strip name) ++ " - Rs. "
                  ++ a ++ LF) acc
  | _ => None
  end.

Definition simple_row (row : list string) (acc : tally) : option tally :=
  match row with
  | [desc; amt] =>
      add_item amt (fun a => "- " ++ Py.strip desc ++ ": Rs. " ++ a ++ LF) acc
  | _ => None
  end.

Definition meds_row (row : list string) (acc : tally) : option tally :=
  match row with
  | [form; name; amt] =>
      add_item amt
        (fun a => "• " ++ (form ++ " " ++ Py.strip name) ++ " - ₹" ++ a ++ LF)
        acc
  | _ => None
  end.

(** The recognisers from the third on, which work on the text without its
    line of the total repair cost, and the final fall-back. *)
Definition recognise_rest (field_value : string) : option string :=
  let field_value :=
    Re.sub IGNORECASE total_repair_cost [] field_value in
  match Re.findall no_flags pattern_motor_repair field_value with
  | (_ :: _) as rows => recognise motor_row (LF ++ "Total Repair Cost: Rs. ") rows
  | [] =>
  match Re.findall no_flags pattern_pharmacy_sn_amt field_value with
  | (_ :: _) as rows => recognise pharmacy_row "Total: Rs. " rows
  | [] =>
  match Re.findall no_flags pattern_simple_desc_amount field_value with
  | (_ :: _) as rows => recognise simple_row "- Total: Rs. " rows
  | [] =>
  match Re.findall no_flags pattern_fallback_meds field_value with
  | (_ :: _) as rows => recognise meds_row "Total: ₹" rows
  | [] =>
      let clean_raw_value :=
        Py.replace CR " " (Py.replace LF " " (Py.strip field_value)) in
      if Py.truthy clean_raw_value then Some ("- " ++ clean_raw_value)
      else Some ""
  end end end end.

Definition extract_and_format_raw_block (field_value : string)
  : option string :=
  if negb (Py.truthy field_value) then Some ""
  else
    let field_value := normalise field_value in
    match Re.findall IGNORECASE_DOTALL pattern_bill_items field_value with
    | (_ :: _) as rows => recognise bill_row "- Total: Rs. " rows
    | [] =>
    match Re.findall IGNORECASE pattern_estimate_lines field_value with
    | (_ :: _) as rows => recognise estimate_row "- Total: Rs. " rows
    | [] => recognise_rest field_value
    end end.

(** *** [extract_summary] *)

(** The configuration of a document type: [fields] maps a field name to
    its patterns, in the order of the file; [summary_sections] lists the
    sections, each with its title (absent when the key is missing) and its
    field names. *)
Record section : Type :=
  { section_title : option string; section_fields : list string }.

Record config : Type :=
  { fields : list (string * list regex); summary_sections : list section }.

(** A summary: a dictionary from field names to values. *)
Abbreviation summary := (gmap string string).

(** [(\w)-\s+(\w)] *)
Definition broken_word : regex :=
  seqs [Grp word; Lit "-"; plus space; Grp word].

(** [\b(...)$] with the alternatives [Nationality], [Claimant], [SPAARC.*],
    [By submitting.*], [NEFT mandate.*] and [insurance claim.*] *)
Definition trailing_junk : regex :=
  seqs [WordB;
        Grp (alts [Lit "Nationality"; Lit "Claimant";
                   Seq (Lit "SPAARC") (star Dot);
                   Seq (Lit "By submitting") (star Dot);
                   Seq (Lit "NEFT mandate") (star Dot);
                   Seq (Lit "insurance claim") (star Dot)]);
        Eol].

Definition money_fields : list string :=
  ["estimated cost of repairs"; "total repair cost"; "repair estimate";
   "amount claimed"; "claim amount"; "sum insured"; "approved amount";
   "depreciation amount"].

(** [^\d{1,3}(,\d{3})*(\.\d{1,2})?$] *)
Definition grouped_number : regex :=
  seqs [Bol; upto 1 3 digit; star (Grp (Seq (Lit ",") (upto 3 3 digit)));
        opt (Grp (Seq (Lit ".") (upto 1 2 digit))); Eol].

(** [^\d+(\.\d+)?$] *)
Definition plain_number : regex :=
  seqs [Bol; plus digit; opt (Grp (Seq (Lit ".") (plus digit))); Eol].

Definition matches (r : regex) (s : string) : bool :=
  bool_decide (is_Some (Re.match_ no_flags r s)).

(** The value after the repair of broken words and the removal of the
    trailing boilerplate (lines 232 to 237). *)
Definition tidy (value : string) : string :=
  let value := Re.sub no_flags broken_word [TGrp 1; TGrp 2] value in
  Py.strip (Re.sub IGNORECASE trailing_junk [] value).

(** The prefix of a value that looks like a number (lines 248 to 251);
    [None] when the conversion of the number raises. *)
Definition add_rupees (cleaned_value : string) : option string :=
  if matches grouped_number cleaned_value then
    Some ("Rs. " ++ cleaned_value)
  else if matches plain_number cleaned_value then
    x ← Num.float cleaned_value;
    n ← Num.int x;
    a ← Num.format_int_f0 n;
    Some ("Rs. " ++ a)
  else Some cleaned_value.

(** The value stored for a field whose extracted value is not blank. *)
Definition stored_value (field_name value : string) : option string :=
  let cleaned_value := tidy value in
  if str_in (Py.lower field_name) money_fields
  then add_rupees cleaned_value
  else Some cleaned_value.

(** One turn of the loop over the fields of the configuration. *)
Definition summary_step (text : string) (acc : summary)
  (item : string * list regex) : option summary :=
  let '(field_name, patterns) := item in
  let value := extract_field text patterns in
  if Py.truthy (Py.strip value) then
    cleaned_value ← stored_value field_name value;
    Some (<[field_name := cleaned_value]> acc)
  else Some acc.

Fixpoint summary_loop (text : string) (items : list (string * list regex))
  (acc : summary) : option summary :=
  match items with
  | [] => Some acc
  | item :: items' =>
      acc' ← summary_step text acc item; summary_loop text items' acc'
  end.

Definition extract_summary (text : string) (cfg : config) : option summary :=
  summary_loop text (fields cfg) ∅.

(** *** The merge into the combined summary (lines 435 to 437) *)

(** One turn of the loop over the items of a file's summary. *)
Definition merge_item (key value : string) (combined_summary : summary)
  : summary :=
  match combined_summary !! key with
  | Some old =>
      if negb (Py.truthy (Py.strip old))
      then <[key := value]> combined_summary
      else combined_summary
  | None => <[key := value]> combined_summary
  end.

Definition merge (combined_summary file_summary : summary) : summary :=
  map_fold merge_item combined_summary file_summary.

(** The combined summary after the summaries of the files, in the order
    of the upload. *)
Definition merge_all (combined_summary : summary)
  (file_summaries : list summary) : summary :=
  fold_left merge file_summaries combined_summary.

(** *** The rendering of the sections (lines 580 to 643) *)

(** [heading and heading.lower() == title] *)
Definition heading_is (heading : option string) (title : string) : bool :=
  match heading with
  | Some h => Py.truthy h && String.eqb (Py.lower h) title
  | None => false
  end.

(** [field[len(prefix):].strip(" :-")] *)
Definition cut (prefix field : string) : string :=
  Py.strip_chars " :-" (Py.drop (Py.len prefix) field).

(** [field.replace(marker, "").strip(" :-")] *)
Definition without (marker field : string) : string :=
  Py.strip_chars " :-" (Py.replace marker EmptyString field).

(** [heading.lower().replace(" details", "").strip()] *)
Definition heading_stem (h : string) : string :=
  Py.strip (Py.replace " details" EmptyString (Py.lower h)).

Definition interactive_fields : list string :=
  ["FIR Status"; "Hospital Type Network"; "Cashless Facility Availed";
   "Claim Type"].

(** The chain of tests that shortens the name of a field: the label to
    print, or [None] when the chain ends in [continue]. *)
Definition short_field (heading : option string) (field : string)
  : option string :=
  let low := Py.lower field in
  if heading_is heading "life assured details" && Py.startswith low "insured "
  then Some (cut "Insured " field)
  else if heading_is heading "bank & payout details"
          && Py.startswith low "claimant "
  then Some (cut "Claimant " field)
  else if heading_is heading "claim submission details"
          && (Py.contains " (official)" low || Py.contains " (official use)" low)
  then Some (Py.strip_chars " :-"
               (Py.replace " (Official Use)" EmptyString
                  (Py.replace " (Official)" EmptyString field)))
  else if heading_is heading "death certificate details"
          && Py.contains " (death certificate)" low
  then Some (without "(Death Certificate)" field)
  else if heading_is heading "kyc details" && Py.contains " (kyc)" low
  then Some (without "(KYC)" field)
  else if heading_is heading "policy details" && String.eqb low "policy number"
  then Some "Policy No."
  else if heading_is heading "claimant details" && Py.startswith low "claimant "
  then Some (cut "Claimant " field)
  else if heading_is heading "driver details" && Py.startswith low "driver "
  then (if negb (Py.contains "driving" low)
        then Some (cut "Driver " field) else Some field)
  else if heading_is heading "garage details" && Py.startswith low "garage "
  then Some (cut "Garage " field)
  else if heading_is heading "other insurance details"
          && Py.startswith low "other insurance - "
  then Some (cut "Other Insurance - " field)
  else if heading_is heading "interest holder details"
          && Py.startswith low "interest holder - "
  then Some (cut "Interest Holder - " field)
  else if heading_is heading "discharge voucher"
          && Py.contains "(discharge voucher)" low
  then Some (without "(Discharge Voucher)" field)
  else if heading_is heading "satisfaction note"
          && Py.contains "(satisfaction note)" low
  then Some (without "(Satisfaction Note)" field)
  else if heading_is heading "kyc information" && Py.contains "(kyc)" low
  then Some (without "(KYC)" field)
  else if heading_is heading "primary insured details"
          && Py.startswith low "primary insured "
  then Some (cut "Primary Insured " field)
  else if heading_is heading "insured person hospitalized details"
          && Py.startswith low "insured person hospitalized "
  then Some (cut "Insured Person Hospitalized " field)
  else
    match heading with
    | Some h =>
        if Py.truthy h && Py.startswith low (heading_stem h ++ " ")
        then Some (cut (heading_stem h) field)
        else if str_in field interactive_fields then None
        else Some field
    | None => if str_in field interactive_fields then None else Some field
    end.

Definition raw_keys : list string :=
  ["Bill Breakup Details Raw"; "Medication Details Raw"; "Repair Items Raw";
   "Loss Details Raw"; "Cost Details Raw"].

(** One turn of the loop over the fields of a section: [section_content]
    after it; [None] when the formatting of a raw block raises. *)
Definition render_field (combined_summary : summary) (heading : option string)
  (section_content : list string) (field : string) : option (list string) :=
  let value := Py.strip (default EmptyString (combined_summary !! field)) in
  if Py.truthy value then
    match short_field heading field with
    | None => Some section_content
    | Some label =>
        if existsb (fun raw_key => Py.contains raw_key field) raw_keys then
          block ← extract_and_format_raw_block value;
          Some (app section_content ["### " ++ label ++ LF ++ block])
        else
          Some (app section_content ["- " ++ label ++ ": " ++ value])
    end
  else Some section_content.

Fixpoint render_fields (combined_summary : summary) (heading : option string)
  (section_fields : list string) (section_content : list string)
  : option (list string) :=
  match section_fields with
  | [] => Some section_content
  | field :: rest =>
      section_content' ←
        render_field combined_summary heading section_content field;
      render_fields combined_summary heading rest section_content'
  end.

(** The text of an optional string inside a formatted string. *)
Definition show (heading : option string) : string :=
  match heading with Some h => h | None => "None" end.

(** One turn of the loop over the sections: [formatted] after it. *)
Definition render_section (combined_summary : summary) (formatted : string)
  (s : section) : option string :=
  let heading := section_title s in
  section_content ←
    render_fields combined_summary heading (section_fields s) [];
  match section_content with
  | [] => Some formatted
  | _ =>
      Some (formatted ++ LF ++ "### " ++ show heading ++ LF
            ++ Py.join LF section_content ++ LF)
  end.

Fixpoint render_sections (combined_summary : summary)
  (sections : list section) (formatted : string) : option string :=
  match sections with
  | [] => Some formatted
  | s :: rest =>
      formatted' ← render_section combined_summary formatted s;
      render_sections combined_summary rest formatted'
  end.

(** The text [formatted] that is displayed. *)
Definition format_summary (cfg : config) (combined_summary : summary)
  : option string :=
  render_sections combined_summary (summary_sections cfg) EmptyString.

(** ** Notions used in the statements *)

(** *** The control flow of [extract_field] as a machine

    A state is a point of the function: at the head of the loop over the
    patterns, at the head of the loop over the groups of a match, or after
    a [return]. *)
Inductive point : Type :=
| AtPattern (patterns : list regex)
| AtGroup (m : Match) (gs : list (option string))
| Returned (out : string).

Inductive step (text : string) : point -> point -> Prop :=
| step_no_pattern :
    step text (AtPattern []) (Returned EmptyString)
| step_no_match pattern patterns :
    Re.search IGNORECASE_DOTALL pattern text = None ->
    step text (AtPattern (pattern :: patterns)) (AtPattern patterns)
| step_match pattern patterns m :
    Re.search IGNORECASE_DOTALL pattern text = Some m ->
    step text (AtPattern (pattern :: patterns)) (AtGroup m (groups m))
| step_full_match m :
    step text (AtGroup m [])
         (Returned (collapse_spaces (Py.strip (group0 m))))
| step_group_unset m gs :
    step text (AtGroup m (None :: gs)) (AtGroup m gs)
| step_group_empty m group gs :
    Py.truthy group = false ->
    step text (AtGroup m (Some group :: gs)) (AtGroup m gs)
| step_group_continue m group gs :
    Py.truthy group = true ->
    judge (clean_group group) = Continue ->
    step text (AtGroup m (Some group :: gs)) (AtGroup m gs)
| step_group_return m group gs value :
    Py.truthy group = true ->
    judge (clean_group group) = Return value ->
    step text (AtGroup m (Some group :: gs)) (Returned value).

(** A run of the function on [text] and [patterns] that returns [out]. *)
Definition runs (text : string) (patterns : list regex) (out : string) : Prop :=
  rtc (step text) (AtPattern patterns) (Returned out).

(** *** White space in a value *)

(** Every white space character of [s] is a space that does not follow
    another white space character; [after_ws] tells whether the character
    before [s] is white space. *)
Fixpoint single_spaced (after_ws : bool) (s : string) : bool :=
  match s with
  | EmptyString => true
  | String c s' =>
      if Py.isspace c
      then negb after_ws && Ascii.eqb c " " && single_spaced true s'
      else single_spaced false s'
  end.

(** [s] is single spaced and does not end with white space. *)
Fixpoint normal (after_ws : bool) (s : string) : bool :=
  match s with
  | EmptyString => negb after_ws
  | String c s' =>
      if Py.isspace c
      then negb after_ws && Ascii.eqb c " " && normal true s'
      else normal false s'
  end.

(** The last character of [s], if any, is not white space. *)
Fixpoint ends_well (s : string) : bool :=
  match s with
  | EmptyString => true
  | String c EmptyString => negb (Py.isspace c)
  | String _ s' => ends_well s'
  end.

(** What [re.sub(r"\s+", " ", s)] computes, read off the text directly:
    [in_run] tells whether the character before [s] belongs to a run of
    white space already replaced. *)
Fixpoint squeeze (in_run : bool) (s : string) : string :=
  match s with
  | EmptyString => EmptyString
  | String c s' =>
      if Py.isspace c
      then if in_run then squeeze true s' else String " " (squeeze true s')
      else String c (squeeze false s')
  end.

(** The length of the run of white space that starts [s]. *)
Fixpoint ws_prefix (s : string) : nat :=
  match s with
  | String c s' => if Py.isspace c then S (ws_prefix s') else 0
  | EmptyString => 0
  end.

(** *** Summaries *)

(** A value is blank when it is empty or all white space. *)
Definition blank (v : string) : bool := negb (Py.truthy (Py.strip v)).

(** A summary that [extract_summary] returns for some text and
    configuration. *)
Definition produced (s : summary) : Prop :=
  exists text cfg, extract_summary text cfg = Some s.

(** *** The output of the bill recogniser, row by row *)

(** The rows of the bill whose amount is numeric, each with its
    description and its amount as a float; [None] when an amount does not
    convert. *)
Fixpoint bill_items (rows : list (list string))
  : option (list (string * spec_float)) :=
  match rows with
  | [] => Some []
  | [_; desc; amt] :: rows' =>
      if numeric amt then
        a ← Num.float (Py.replace "," EmptyString amt);
        items ← bill_items rows';
        Some ((Py.strip desc, a) :: items)
      else bill_items rows'
  | _ :: _ => None
  end.

Definition bill_line (item : string * spec_float) : string :=
  "- " ++ item.1 ++ ": Rs. " ++ Num.format_f0 item.2 ++ LF.

Fixpoint concat_lines (lines : list string) : string :=
  match lines with
  | [] => EmptyString
  | l :: lines' => l ++ concat_lines lines'
  end.

(** The sum of the amounts, added from the left as the loop does. *)
Definition bill_total (items : list (string * spec_float)) : spec_float :=
  fold_left (fun t item => Num.add t item.2) items Num.zero.

Definition bill_report (items : list (string * spec_float)) : string :=
  concat_lines (map bill_line items) ++
  (if Num.is_positive (bill_total items)
   then "- Total: Rs. " ++ Num.format_f0 (bill_total items)
   else EmptyString).

(** A text without white space. *)
Definition plain (s : string) : Prop :=
  Py.existsb_str Py.isspace s = false.

(** Every value of a summary is without white space at its ends. *)
Definition trimmed_values (s : summary) : Prop :=
  forall k v, s !! k = Some v -> Py.strip v = v.

(** *** The words of a pattern

    [lang fl r w]: the pattern [r] can match the word [w], the tests on
    the context ([^], [$], [\b]) taken to hold.  It bounds from above what
    a group of a match can hold. *)

Fixpoint lit_lang (fl : flags) (s w : string) : Prop :=
  match s, w with
  | EmptyString, EmptyString => True
  | String p s', String c w' => eq_char_fl fl p c = true /\ lit_lang fl s' w'
  | _, _ => False
  end.

Definition one_char (p : ascii -> bool) (w : string) : Prop :=
  exists c, w = String c EmptyString /\ p c = true.

Definition at_most (hi : option nat) (n : nat) : Prop :=
  match hi with Some h => n <= h | None => True end.

Definition repeated (L : string -> Prop) (lo : nat) (hi : option nat)
  (w : string) : Prop :=
  exists ws, w = concat_lines ws /\ Forall L ws
             /\ lo <= length ws /\ at_most (sub_opt hi lo) (length ws - lo).

Fixpoint lang (fl : flags) (r : regex) (w : string) : Prop :=
  match r with
  | Eps | Bol | Eol | WordB => w = EmptyString
  | Lit s => lit_lang fl s w
  | Dot => one_char (fun c => dotall fl || negb (Py.is_code 10 c)) w
  | In items => one_char (in_set_fl fl items) w
  | NotIn items => one_char (fun c => negb (in_set_fl fl items c)) w
  | Seq r1 r2 => exists w1 w2, w = w1 ++ w2 /\ lang fl r1 w1 /\ lang fl r2 w2
  | Alt r1 r2 => lang fl r1 w \/ lang fl r2 w
  | Rep _ lo hi r1 => repeated (lang fl r1) lo hi w
  | Grp r1 => lang fl r1 w
  end.

(** Every group of [r], numbered from [base + 1], holds only words with
    the property [P] of its number. *)
Fixpoint groups_respect (fl : flags) (P : nat -> string -> Prop)
  (r : regex) (base : nat) : Prop :=
  match r with
  | Seq r1 r2 | Alt r1 r2 =>
      groups_respect fl P r1 base
      /\ groups_respect fl P r2 (base + ngroups r1)
  | Rep _ _ _ r1 => groups_respect fl P r1 base
  | Grp r1 =>
      (forall w, lang fl r1 w -> P (S base) w)
      /\ groups_respect fl P r1 (S base)
  | _ => True
  end.

(** A state of a match attempt on [text] is sound when its rest is the
    text from its position on and its groups have the property [P]. *)
Definition state_ok (text : string) (P : nat -> string -> Prop)
  (st : mstate) : Prop :=
  Py.drop (pos st) text = rst st
  /\ forall i a b, List.In (i, (a, b)) (caps st) -> P i (slice text a b).

(** The state [st'] is [st] after the word [w]. *)
Definition after (st : mstate) (w : string) (st' : mstate) : Prop :=
  rst st = w ++ rst st' /\ pos st' = pos st + Py.len w.

(** A matcher that passes to its continuation only sound states reached
    after a word of [L]. *)
Definition sound (text : string) (P : nat -> string -> Prop)
  (m : matcher_t) (L : string -> Prop) : Prop :=
  forall st k res,
    m st k = Some res -> state_ok text P st ->
    exists st' w,
      k st' = Some res /\ after st w st' /\ L w /\ state_ok text P st'.

(** The shape of an amount: digits and commas, then possibly a point and
    digits. *)
Definition money_body (s : string) : bool :=
  Py.forallb_str (fun c => Py.isdecimal c || Ascii.eqb c ",") s.

Definition amount_shape (w : string) : Prop :=
  exists body frac,
    w = body ++ frac /\ money_body body = true
    /\ (frac = EmptyString
        \/ exists ds, frac = String "." ds
                      /\ Py.forallb_str Py.isdecimal ds = true).

Definition bill_row_ok (row : list string) : Prop :=
  exists s_no desc amt,
    row = [s_no; desc; amt] /\ (amt = EmptyString \/ amount_shape amt).

Fixpoint remove_char (x : ascii) (s : string) : string :=
  match s with
  | EmptyString => EmptyString
  | String c s' =>
      if Ascii.eqb c x then remove_char x s' else String c (remove_char x s')
  end.

(** *** Patterns, configurations and texts of the examples *)

(** [Status:\s*(\w+)] *)
Definition status_pattern : regex :=
  seqs [Lit "Status:"; star space; Grp (plus word)].

(** [Name:\s*] and then one group, of [.*] *)
Definition name_pattern : regex :=
  seqs [Lit "Name:"; star space; Grp (star Dot)].

(** [Country:\s*(\w+)] *)
Definition country_pattern : regex :=
  seqs [Lit "Country:"; star space; Grp (plus word)].

(** [Claim Amount:\s*([\d,.]+)] *)
Definition claim_amount_pattern : regex :=
  seqs [Lit "Claim Amount:"; star space;
        Grp (plus (In [CDigit; CChar ","; CChar "."]))].

Definition claim_amount_config : config :=
  {| fields := [("Claim Amount", [claim_amount_pattern])];
     summary_sections := [] |}.

Definition country_config : config :=
  {| fields := [("Country", [country_pattern])]; summary_sections := [] |}.

Definition claim_details_config : config :=
  {| fields := [];
     summary_sections :=
       [ {| section_title := Some "Claim Details";
            section_fields := ["Claim Type"] |} ] |}.

(** The two rows of the bill of the specification. *)
Definition room_and_medicine : string :=
  "1 " ++ QUOTE ++ "Room Rent" ++ QUOTE ++ " 1500" ++ LF
  ++ "2 " ++ QUOTE ++ "Medicine" ++ QUOTE ++ " 300".

(** A bill of one row whose amount is zero. *)
Definition free_item : string := "1 " ++ QUOTE ++ "x" ++ QUOTE ++ " 0".

(** A bill of one row whose amount is a comma, so not a number. *)
Definition unpriced_item : string := "1 " ++ QUOTE ++ "x" ++ QUOTE ++ " ,a".

(** A claim amount of 310 digits: one and 309 zeros, more than the largest
    binary64 number. *)
Fixpoint zeros (n : nat) : string :=
  match n with
  | O => EmptyString
  | S n' => String "0" (zeros n')
  end.

Definition huge_amount : string := String "1" (zeros 309).

(** ** Notions used in the further properties *)

(** The field [k] has no value in [s], or a value that is empty or all
    white space. *)
Definition hollow (k : string) (s : summary) : Prop :=
  match s !! k with Some v => blank v = true | None => True end.

(** An amount as a recogniser captures it: nothing, or digits and commas
    with possibly a point and digits. *)
Definition priced (amt : string) : Prop :=
  amt = EmptyString \/ amount_shape amt.

(** What [re.sub(r"\s{2,}", " ", s)] computes, read off the text: a run
    of two white space characters or more becomes one space, a white space
    character on its own is kept; [in_run] tells whether the character
    before [s] belongs to a run already replaced. *)
Fixpoint squeeze2 (in_run : bool) (s : string) : string :=
  match s with
  | EmptyString => EmptyString
  | String c s' =>
      if Py.isspace c then
        if in_run then squeeze2 true s'
        else
          match s' with
          | String d _ =>
              if Py.isspace d then String " " (squeeze2 true s')
              else String c (squeeze2 false s')
          | EmptyString => String c EmptyString
          end
      else String c (squeeze2 false s')
  end.

(** No two white space characters of [s] are next to each other;
    [after_ws] tells whether the character before [s] is white space. *)
Fixpoint spaced_apart (after_ws : bool) (s : string) : bool :=
  match s with
  | EmptyString => true
  | String c s' =>
      if Py.isspace c then negb after_ws && spaced_apart true s'
      else spaced_apart false s'
  end.

(** No recogniser of [extract_and_format_raw_block] finds a row in the
    value [field_value]: the first two work on the preprocessed text, the
    other four on that text without its line of the total repair cost. *)
Definition unrecognised (field_value : string) : Prop :=
  let text := normalise field_value in
  let text' := Re.sub IGNORECASE total_repair_cost [] text in
  Re.findall IGNORECASE_DOTALL pattern_bill_items text = []
  /\ Re.findall IGNORECASE pattern_estimate_lines text = []
  /\ Re.findall no_flags pattern_motor_repair text' = []
  /\ Re.findall no_flags pattern_pharmacy_sn_amt text' = []
  /\ Re.findall no_flags pattern_simple_desc_amount text' = []
  /\ Re.findall no_flags pattern_fallback_meds text' = [].

(** The text [s] with every character [x] replaced by [y]. *)
Fixpoint subst_char (x y : ascii) (s : string) : string :=
  match s with
  | EmptyString => EmptyString
  | String c s' => String (if Ascii.eqb c x then y else c) (subst_char x y s')
  end.

(** [s] holds no line feed and no carriage return. *)
Definition one_line (s : string) : bool :=
  negb (Py.existsb_str (fun c => Py.is_code 10 c || Py.is_code 13 c) s).

(** The match of the first pattern of the list that matches the text. *)
Fixpoint first_match (text : string) (patterns : list regex) : option Match :=
  match patterns with
  | [] => None
  | pattern :: patterns' =>
      match Re.search IGNORECASE_DOTALL pattern text with
      | Some m => Some m
      | None => first_match text patterns'
      end
  end.

(** [combined_summary.get(field, "").strip()]: the value of a field as the
    rendering loop reads it. *)
Definition shown (combined_summary : summary) (field : string) : string :=
  Py.strip (default EmptyString (combined_summary !! field)).

(** The line printed for a value that no recogniser matches: the text
    without its line of the total repair cost, stripped, with each line
    feed and each carriage return replaced by a space (line 216). *)
Definition fallback_line (field_value : string) : string :=
  Py.replace CR " "
    (Py.replace LF " "
       (Py.strip (Re.sub IGNORECASE total_repair_cost []
                    (normalise field_value)))).

(** Two fields in two orders, and a summary with a blank value. *)
Definition country_and_amount : config :=
  {| fields := [("Country", [country_pattern]);
                ("Claim Amount", [claim_amount_pattern])];
     summary_sections := [] |}.

Definition amount_and_country : config :=
  {| fields := [("Claim Amount", [claim_amount_pattern]);
                ("Country", [country_pattern])];
     summary_sections := [] |}.

Definition two_lines : string :=
  "one two three" ++ LF ++ "four five six".

(** *** [generate_pptx] (lines 313 to 372)

    A presentation is the list of its slides; a slide records the index of
    its layout, the text of its title and the text given to the paragraph
    added to its body, if any. *)

Record slide : Type :=
  { slide_layout : nat; slide_title : string; slide_text : option string }.

(** [s.split(sep)] for a separator that is not empty; [skip] counts the
    characters of the separator being passed over, [cur] is the piece
    being read, in reverse. *)
Fixpoint split_on_go (sep : string) (skip : nat) (cur : string) (s : string)
  : list string :=
  match s with
  | EmptyString => [Py.rev_str EmptyString cur]
  | String c s' =>
      match skip with
      | S k => split_on_go sep k cur s'
      | O =>
          if String.prefix sep s
          then Py.rev_str EmptyString cur
               :: split_on_go sep (Py.len sep - 1) EmptyString s'
          else split_on_go sep 0 (String c cur) s'
      end
  end.

Definition split_on (sep s : string) : list string :=
  split_on_go sep 0 EmptyString s.

(** The slide made from the lines of a chunk (lines 350 to 352). *)
Definition titled_slide (lines : list string) : slide :=
  {| slide_layout := 1;
     slide_title := match lines with
                    | line :: _ => Py.strip line
                    | [] => "Details"
                    end;
     slide_text := Some (Py.strip (Py.join LF (tail lines))) |}.

(** The body of the loop over the chunks: [None] when it raises (the
    index [0] of an empty list), [Some None] when the chunk is skipped,
    [Some (Some s)] when the slide [s] is added. *)
Definition chunk_slide (i : nat) (section_text : string)
  : option (option slide) :=
  if negb (Py.truthy (Py.strip section_text)) then Some None
  else
    let lines := Py.splitlines (Py.strip section_text) in
    if Nat.eqb i 0 then
      match lines with
      | [] => None
      | first :: _ =>
          if negb (Py.truthy (Py.strip first)) then
            if Nat.ltb 0 (length lines) then
              Some (Some {| slide_layout := 1;
                            slide_title := Py.strip first;
                            slide_text :=
                              Some (Py.strip (Py.join LF (tail lines))) |})
            else
              Some (Some {| slide_layout := 1;
                            slide_title := "Summary Details";
                            slide_text := Some (Py.strip section_text) |})
          else Some (Some (titled_slide lines))
      end
    else Some (Some (titled_slide lines)).

(** The loop over [enumerate(sections)]: the slides added, in order. *)
Fixpoint chunk_slides (i : nat) (sections : list string)
  : option (list slide) :=
  match sections with
  | [] => Some []
  | section_text :: rest =>
      added ← chunk_slide i section_text;
      slides ← chunk_slides (S i) rest;
      Some (match added with Some s => s :: slides | None => slides end)
  end.

Definition title_slide : slide :=
  {| slide_layout := 0; slide_title := "Insurance Claim Summary";
     slide_text := None |}.

(** The slides of the presentation that is saved: [None] when the function
    raises, [Some None] when it returns [None] because the library is not
    available. *)
Definition generate_pptx (PPTS_AVAILABLE : bool) (text_content : string)
  : option (option (list slide)) :=
  if negb PPTS_AVAILABLE then Some None
  else
    slides ← chunk_slides 0 (split_on "### " text_content);
    Some (Some (title_slide :: slides)).

(** A slide made from a chunk: its title is not empty, holds no line
    boundary and no white space at its ends; its text has no white space at
    its ends. *)
Definition tidy_slide (s : slide) : Prop :=
  slide_layout s = 1
  /\ slide_title s <> EmptyString
  /\ Py.strip (slide_title s) = slide_title s
  /\ Py.existsb_str Py.islinebreak (slide_title s) = false
  /\ exists t, slide_text s = Some t /\ Py.strip t = t.

(** * Properties *)

#[local] Arguments Py.isspace : simpl never.

(** ** White space: stripping and single spacing *)

Lemma lstrip_head p s c s' :
  Py.lstrip_by p s = String c s' -> p c = false.
Proof.
  induction s as [|d s IH]; simpl; [discriminate|].
  destruct (p d) eqn:E; [exact IH|]. intros [= <- _]. exact E.
Qed.

Lemma rstrip_head p c s :
  p c = false -> exists t, Py.rstrip_by p (String c s) = String c t.
Proof.
  intros E. simpl. destruct (Py.rstrip_by p s); rewrite ?E; eauto.
Qed.

Lemma strip_head s c s' :
  Py.strip s = String c s' -> Py.isspace c = false.
Proof.
  unfold Py.strip, Py.strip_by. intros H.
  destruct (Py.lstrip_by Py.isspace s) as [|d t] eqn:E; [discriminate|].
  pose proof (lstrip_head _ _ _ _ E) as Hd.
  destruct (rstrip_head Py.isspace d t Hd) as [u Hu].
  rewrite Hu in H. injection H as <- _. exact Hd.
Qed.

Lemma rstrip_ends_well s : ends_well (Py.rstrip_by Py.isspace s) = true.
Proof.
  induction s as [|c s IH]; simpl; [reflexivity|].
  destruct (Py.rstrip_by Py.isspace s) as [|d t] eqn:E.
  - destruct (Py.isspace c) eqn:Ec; simpl; [reflexivity|]. now rewrite Ec.
  - exact IH.
Qed.

Lemma strip_ends_well s : ends_well (Py.strip s) = true.
Proof. apply rstrip_ends_well. Qed.

Lemma normal_single_spaced b s : normal b s = true -> single_spaced b s = true.
Proof.
  revert b. induction s as [|c s IH]; intros b; simpl; [reflexivity|].
  destruct (Py.isspace c); [|apply IH].
  rewrite !andb_true_iff. intros [[-> ->] H]. auto.
Qed.

Lemma single_spaced_weaken b s :
  single_spaced b s = true -> single_spaced false s = true.
Proof.
  destruct s as [|c s]; simpl; [reflexivity|].
  destruct (Py.isspace c); [|exact id].
  rewrite !andb_true_iff. intros [[_ ->] ->]. auto.
Qed.

Lemma single_spaced_take b n s :
  single_spaced b s = true -> single_spaced b (Py.take n s) = true.
Proof.
  revert b n. induction s as [|c s IH]; intros b [|n]; simpl; try reflexivity.
  destruct (Py.isspace c); [|apply IH].
  rewrite !andb_true_iff. intros [[-> ->] H]. auto.
Qed.

Lemma single_spaced_lstrip b s :
  single_spaced b s = true ->
  single_spaced true (Py.lstrip_by Py.isspace s) = true.
Proof.
  revert b. induction s as [|c s IH]; intros b; simpl; [reflexivity|].
  destruct (Py.isspace c) eqn:E.
  - rewrite !andb_true_iff. intros [_ H]. eapply IH, H.
  - simpl. rewrite E. exact id.
Qed.

Lemma normal_rstrip b s :
  single_spaced b s = true ->
  Py.rstrip_by Py.isspace s <> EmptyString ->
  normal b (Py.rstrip_by Py.isspace s) = true.
Proof.
  revert b. induction s as [|c s IH]; intros b; simpl; [congruence|].
  destruct (Py.rstrip_by Py.isspace s) as [|d t] eqn:E.
  - destruct (Py.isspace c) eqn:Ec; [congruence|]. intros _ _. cbn [normal].
    now rewrite Ec.
  - intros H _. change (normal b (String c (String d t)) = true).
    cbn [normal]. cbn [normal] in IH. destruct (Py.isspace c).
    + apply andb_true_iff in H as [H1 H2]. rewrite H1. apply (IH true H2).
      discriminate.
    + apply (IH false H). discriminate.
Qed.

Lemma normal_strip b s :
  single_spaced b s = true -> Py.strip s <> EmptyString ->
  normal true (Py.strip s) = true.
Proof.
  intros H. apply normal_rstrip. eapply single_spaced_lstrip, H.
Qed.

Lemma normal_rstrip_id b s :
  normal b s = true -> Py.rstrip_by Py.isspace s = s.
Proof.
  revert b. induction s as [|c s IH]; intros b; simpl; [reflexivity|].
  destruct (Py.isspace c) eqn:E.
  - rewrite !andb_true_iff. intros [_ H]. rewrite (IH _ H).
    destruct s; [discriminate H|reflexivity].
  - intros H. rewrite (IH _ H). destruct s; reflexivity.
Qed.

Lemma normal_trimmed s : normal true s = true -> Py.strip s = s.
Proof.
  intros H. unfold Py.strip, Py.strip_by.
  assert (Py.lstrip_by Py.isspace s = s) as ->.
  { destruct s as [|c s]; simpl in *; [reflexivity|].
    destruct (Py.isspace c); [discriminate|reflexivity]. }
  eapply normal_rstrip_id, H.
Qed.

Lemma single_spaced_squeeze b s : single_spaced b (squeeze true s) = true
  /\ single_spaced false (squeeze false s) = true.
Proof.
  revert b. induction s as [|c s IH]; intros b; simpl; [auto|].
  destruct (Py.isspace c) eqn:E; simpl; rewrite ?E.
  - split; [apply IH|]. change (Py.isspace " ") with true. simpl. apply (IH true).
  - split; apply (IH false).
Qed.

Lemma normal_squeeze s :
  ends_well s = true ->
  (s <> EmptyString -> normal true (squeeze true s) = true)
  /\ normal false (squeeze false s) = true.
Proof.
  induction s as [|c s IH]; [simpl; split; congruence|].
  intros H.
  assert (Hs : s <> EmptyString -> ends_well s = true)
    by (destruct s; [congruence|intros _; exact H]).
  cbn [squeeze]. destruct (Py.isspace c) eqn:E.
  - assert (s <> EmptyString) as Hne
      by (intros ->; simpl in H; rewrite E in H; discriminate).
    destruct (IH (Hs Hne)) as [IH1 _]. split; [auto|].
    cbn [normal]. change (Py.isspace " ") with true. simpl. auto.
  - cbn [normal]. rewrite E.
    destruct s as [|d s]; [simpl; auto|].
    destruct IH as [_ IH2]; [apply Hs; discriminate|]. auto.
Qed.

Lemma normal_squeeze_strip s :
  squeeze false (Py.strip s) <> EmptyString ->
  normal true (squeeze false (Py.strip s)) = true.
Proof.
  intros Hne. pose proof (strip_ends_well s) as He.
  destruct (Py.strip s) as [|c t] eqn:E; [simpl in Hne; congruence|].
  pose proof (strip_head _ _ _ E) as Hc.
  destruct (normal_squeeze _ He) as [_ H].
  cbn [squeeze] in *. rewrite Hc in *. cbn [normal] in *. now rewrite Hc in *.
Qed.

(** ** The matcher on [\s+] *)

Lemma in_set_space c : in_set_fl no_flags [CSpace] c = Py.isspace c.
Proof. unfold in_set_fl, in_set. simpl. apply orb_false_r. Qed.

Lemma step_char_cons q p b c r cs k :
  step_char q {| pos := p; prv := b; rst := String c r; caps := cs |} k
  = if q c then k {| pos := S p; prv := Some c; rst := r; caps := cs |}
    else None.
Proof. reflexivity. Qed.

Lemma step_char_nil q p b cs k :
  step_char q {| pos := p; prv := b; rst := EmptyString; caps := cs |} k = None.
Proof. reflexivity. Qed.

Lemma loop_space fuel st :
  ws_prefix (rst st) < fuel ->
  exists st',
    loop (step_char (in_set_fl no_flags [CSpace])) true fuel None st Some
      = Some st'
    /\ pos st' = pos st + ws_prefix (rst st).
Proof.
  revert st. induction fuel as [|fuel IH]; intros st Hlt; [lia|].
  cbn [loop exhausted dec_opt].
  destruct st as [p b r cs]. cbn [rst pos caps] in *.
  destruct r as [|c r]; cbn [ws_prefix] in *.
  - rewrite step_char_nil. eexists. split; [reflexivity|]. cbn. lia.
  - rewrite step_char_cons, in_set_space. destruct (Py.isspace c) eqn:E.
    + cbn [pos]. assert (Nat.ltb p (S p) = true) as -> by (apply Nat.ltb_lt; lia).
      destruct (IH {| pos := S p; prv := Some c; rst := r; caps := cs |})
        as (st' & -> & Hp); [cbn; lia|].
      eexists. split; [reflexivity|]. cbn in Hp. lia.
    + eexists. split; [reflexivity|]. cbn. lia.
Qed.

Lemma ws_prefix_le s : ws_prefix s <= Py.len s.
Proof.
  induction s as [|c s IH]; simpl; [lia|].
  destruct (Py.isspace c); unfold Py.len in *; simpl; lia.
Qed.

Lemma attempt_space text p before rest :
  match rest with
  | String c _ =>
      if Py.isspace c
      then exists m, attempt no_flags ws_run text p before rest = Some m
                     /\ m_end m = p + ws_prefix rest
      else attempt no_flags ws_run text p before rest = None
  | EmptyString => attempt no_flags ws_run text p before rest = None
  end.
Proof.
  unfold attempt, ws_run, plus, space. cbn [matcher times sub_opt].
  destruct rest as [|c rest]; [reflexivity|].
  rewrite step_char_cons, in_set_space.
  cbn [ws_prefix]. destruct (Py.isspace c); [|reflexivity].
  cbn [rst pos caps].
  edestruct (loop_space (S (Py.len rest))
               {| pos := S p; prv := Some c; rst := rest; caps := [] |})
    as (st' & -> & Hp).
  { cbn. pose proof (ws_prefix_le rest). lia. }
  eexists. split; [reflexivity|]. cbn in *. lia.
Qed.

Lemma walk_space text rest p before :
  walk no_flags ws_run text (fun m out => expand [TLit " "] m ++ out)
       String EmptyString 0 p before rest = squeeze false rest
  /\ walk no_flags ws_run text (fun m out => expand [TLit " "] m ++ out)
       String EmptyString (ws_prefix rest) p before rest = squeeze true rest.
Proof.
  revert p before. induction rest as [|c rest IH]; intros p before.
  - cbn [ws_prefix walk squeeze].
    pose proof (attempt_space text p before EmptyString) as ->. auto.
  - pose proof (attempt_space text p before (String c rest)) as Ha.
    cbn [ws_prefix squeeze] in *. destruct (Py.isspace c) eqn:E.
    + destruct Ha as (m & Ha & He).
      destruct (IH (S p) (Some c)) as [_ IH2].
      split; [|exact IH2]. cbn [walk]. rewrite Ha.
      assert (Nat.eqb (m_end m) p = false) as -> by (apply Nat.eqb_neq; lia).
      replace (m_end m - p - 1) with (ws_prefix rest) by lia.
      rewrite IH2. reflexivity.
    + destruct (IH (S p) (Some c)) as [IH1 _].
      assert (walk no_flags ws_run text
                (fun m out => expand [TLit " "] m ++ out) String EmptyString
                0 p before (String c rest) = String c (squeeze false rest))
        as H0 by (cbn [walk]; rewrite Ha, IH1; reflexivity).
      auto.
Qed.

Lemma collapse_spaces_squeeze s : collapse_spaces s = squeeze false s.
Proof. apply walk_space. Qed.

(** ** [extract_field] *)

Lemma take_all s : Py.take (Py.len s) s = s.
Proof.
  unfold Py.len. induction s as [|c s IH]; cbn [String.length Py.take];
    [reflexivity|]. now rewrite IH.
Qed.

Lemma split_head_take fl r s : exists n, split_head fl r s = Py.take n s.
Proof.
  unfold split_head. destruct (search fl r s) as [m|].
  - now exists (m_start m).
  - exists (Py.len s). now rewrite take_all.
Qed.

Lemma clean_group_normal group :
  clean_group group <> EmptyString -> normal true (clean_group group) = true.
Proof.
  unfold clean_group.
  destruct (split_head_take no_flags next_label
              (collapse_spaces (Py.strip group))) as [n ->].
  apply normal_strip with (b := false), single_spaced_take.
  rewrite collapse_spaces_squeeze. apply (single_spaced_squeeze false).
Qed.

Lemma judge_return clean_value value :
  judge clean_value = Return value ->
  value = "NA" \/ value = clean_value.
Proof.
  unfold judge. repeat case_match; intros [= <-]; auto.
Qed.

Lemma scan_groups_normal gs value :
  scan_groups gs = Some value -> value <> EmptyString ->
  normal true value = true.
Proof.
  induction gs as [|[group|] gs IH]; cbn [scan_groups]; [discriminate| |exact IH].
  destruct (Py.truthy group); [|exact IH].
  destruct (judge (clean_group group)) as [|v] eqn:E; [exact IH|].
  intros [= ->] Hne. apply judge_return in E as [->| ->]; [reflexivity|].
  now apply clean_group_normal.
Qed.

Lemma on_match_normal m :
  on_match m <> EmptyString -> normal true (on_match m) = true.
Proof.
  unfold on_match. destruct (scan_groups (groups m)) as [v|] eqn:E.
  - now apply scan_groups_normal with (gs := groups m).
  - rewrite collapse_spaces_squeeze. apply normal_squeeze_strip.
Qed.

Lemma extract_field_normal text patterns :
  extract_field text patterns <> EmptyString ->
  normal true (extract_field text patterns) = true.
Proof.
  induction patterns as [|pattern patterns IH]; cbn [extract_field];
    [congruence|].
  destruct (search IGNORECASE_DOTALL pattern text) as [m|]; [|exact IH].
  apply on_match_normal.
Qed.

Lemma extract_field_skip text before patterns :
  Forall (fun q => search IGNORECASE_DOTALL q text = None) before ->
  extract_field text (before ++ patterns) = extract_field text patterns.
Proof.
  induction 1 as [|q before Hq _ IH]; [reflexivity|].
  cbn [app extract_field]. now rewrite Hq.
Qed.

Lemma step_deterministic text a b c :
  step text a b -> step text a c -> b = c.
Proof.
  intros H1 H2. inversion H1; subst; inversion H2; subst; congruence.
Qed.

Lemma returned_final text out b : ~ step text (Returned out) b.
Proof. intros H. inversion H. Qed.

Lemma runs_groups text m gs :
  rtc (step text) (AtGroup m gs)
      (Returned (match scan_groups gs with
                 | Some value => value
                 | None => collapse_spaces (Py.strip (group0 m))
                 end)).
Proof.
  induction gs as [|[group|] gs IH]; cbn [scan_groups].
  - apply rtc_once. constructor.
  - destruct (Py.truthy group) eqn:Et.
    + destruct (judge (clean_group group)) as [|v] eqn:Ej.
      * eapply rtc_l; [apply step_group_continue; assumption|exact IH].
      * apply rtc_once. apply step_group_return; assumption.
    + eapply rtc_l; [apply step_group_empty; assumption|exact IH].
  - eapply rtc_l; [apply step_group_unset|exact IH].
Qed.

Lemma runs_extract_field text patterns :
  runs text patterns (extract_field text patterns).
Proof.
  unfold runs. induction patterns as [|pattern patterns IH]; cbn [extract_field].
  - apply rtc_once. constructor.
  - destruct (search IGNORECASE_DOTALL pattern text) as [m|] eqn:E.
    + eapply rtc_l; [apply step_match; eassumption|]. apply runs_groups.
    + eapply rtc_l; [apply step_no_match; assumption|exact IH].
Qed.

Lemma rtc_step_unique text a out1 out2 :
  rtc (step text) a (Returned out1) -> rtc (step text) a (Returned out2) ->
  out1 = out2.
Proof.
  intros H1. remember (Returned out1) as r1 eqn:E1. revert E1.
  induction H1 as [a|a b c Hab Hbc IH]; intros -> H2.
  - inversion H2 as [|? b ? Hs _]; subst; [congruence|].
    now apply returned_final in Hs.
  - inversion H2 as [|? b' ? Hs Hrest]; subst.
    + now apply returned_final in Hab.
    + rewrite <- (step_deterministic _ _ _ _ Hab Hs) in Hrest. auto.
Qed.

(** ** Trimmed values *)

Lemma rstrip_idem p s :
  Py.rstrip_by p (Py.rstrip_by p s) = Py.rstrip_by p s.
Proof.
  induction s as [|c s IH]; [reflexivity|]. cbn [Py.rstrip_by].
  destruct (Py.rstrip_by p s) as [|d t] eqn:E.
  - destruct (p c) eqn:Ec; [reflexivity|]. cbn. now rewrite Ec.
  - cbn [Py.rstrip_by] in *. now rewrite IH.
Qed.

Lemma lstrip_fixed p c s : p c = false -> Py.lstrip_by p (String c s) = String c s.
Proof. intros E. cbn. now rewrite E. Qed.

Lemma strip_idem s : Py.strip (Py.strip s) = Py.strip s.
Proof.
  unfold Py.strip, Py.strip_by.
  destruct (Py.rstrip_by Py.isspace (Py.lstrip_by Py.isspace s)) as [|c t] eqn:E;
    [reflexivity|].
  rewrite (lstrip_fixed _ _ _ (strip_head s c t E)), <- E. apply rstrip_idem.
Qed.

Lemma trimmed_rstrip s : Py.strip s = s -> Py.rstrip_by Py.isspace s = s.
Proof.
  intros H. rewrite <- H at 1. unfold Py.strip, Py.strip_by.
  rewrite rstrip_idem. exact H.
Qed.

Lemma app_cons c a t : String c a ++ t = String c (a ++ t).
Proof. reflexivity. Qed.

Lemma app_nil t : EmptyString ++ t = t.
Proof. reflexivity. Qed.

Lemma rstrip_app p a t :
  Py.rstrip_by p t <> EmptyString ->
  Py.rstrip_by p (a ++ t) = a ++ Py.rstrip_by p t.
Proof.
  intros Hne. induction a as [|c a IH]; [reflexivity|].
  rewrite !app_cons. cbn [Py.rstrip_by]. rewrite IH.
  destruct a; rewrite ?app_cons, ?app_nil; [|reflexivity].
  destruct (Py.rstrip_by p t); [congruence|reflexivity].
Qed.

Lemma trimmed_prefixed c a t :
  Py.isspace c = false -> Py.strip t = t -> t <> EmptyString ->
  Py.strip (String c (a ++ t)) = String c (a ++ t).
Proof.
  intros Hc Ht Hne. unfold Py.strip, Py.strip_by.
  rewrite (lstrip_fixed _ _ _ Hc).
  change (String c (a ++ t)) with (String c a ++ t).
  apply trimmed_rstrip in Ht. rewrite rstrip_app; rewrite Ht; auto.
Qed.

Lemma solid_trimmed s :
  Py.existsb_str Py.isspace s = false -> Py.strip s = s.
Proof.
  intros H. unfold Py.strip, Py.strip_by.
  assert (Py.lstrip_by Py.isspace s = s) as ->.
  { destruct s as [|c s]; [reflexivity|]. cbn in *.
    apply orb_false_iff in H as [-> _]. reflexivity. }
  induction s as [|c s IH]; [reflexivity|]. cbn in *.
  apply orb_false_iff in H as [Hc Hs]. rewrite (IH Hs), Hc. now destruct s.
Qed.

(** ** The text of a number has no white space *)

Lemma plain_app a b : plain a -> plain b -> plain (a ++ b).
Proof.
  unfold plain. induction a as [|c a IH]; [auto|].
  rewrite app_cons. cbn [Py.existsb_str].
  intros H Hb. apply orb_false_iff in H as [-> Ha]. now apply IH.
Qed.

Lemma digit_char_plain n : Py.isspace (ascii_of_N (48 + n mod 10)) = false.
Proof.
  assert (n mod 10 < 10)%N as H by (apply N.mod_lt; discriminate).
  destruct (n mod 10)%N as [|p]; [reflexivity|].
  do 4 (destruct p as [p|p|]; try reflexivity; try lia).
Qed.

Lemma digits_go_plain fuel n acc :
  Forall (fun c => Py.isspace c = false) acc ->
  Forall (fun c => Py.isspace c = false) (Num.digits_go fuel n acc).
Proof.
  revert n acc. induction fuel as [|fuel IH]; intros n acc Ha; cbn; [exact Ha|].
  pose proof (digit_char_plain n).
  destruct (N.ltb n 10); [|apply IH]; constructor; auto.
Qed.

Lemma digits_go_cons fuel n acc :
  acc <> [] \/ fuel <> 0 -> Num.digits_go fuel n acc <> [].
Proof.
  revert n acc. induction fuel as [|fuel IH]; intros n acc H; cbn.
  - destruct H; congruence.
  - destruct (N.ltb n 10); [discriminate|]. apply IH. left. discriminate.
Qed.

Lemma group_digits_plain ds :
  Forall (fun c => Py.isspace c = false) ds -> plain (Num.group_digits ds).
Proof.
  unfold plain. induction 1 as [|d ds Hd _ IH]; cbn; [reflexivity|].
  rewrite Hd. cbn. destruct (_ && _); cbn; [|exact IH].
  change (Py.isspace ",") with false. exact IH.
Qed.

Lemma format_nat_plain n : plain (Num.format_nat n).
Proof. apply group_digits_plain, digits_go_plain. constructor. Qed.

Lemma format_nat_nonempty n : Num.format_nat n <> EmptyString.
Proof.
  unfold Num.format_nat, Num.digits.
  pose proof (digits_go_cons (S (N.size_nat n)) n []) as H.
  destruct (Num.digits_go _ _ _); [exfalso; apply H; auto|discriminate].
Qed.

Lemma sign_prefix_plain s : plain (Num.sign_prefix s).
Proof. now destruct s. Qed.

Lemma format_f0_plain x : plain (Num.format_f0 x).
Proof.
  destruct x; cbn [Num.format_f0]; try reflexivity;
    apply plain_app; auto using sign_prefix_plain, format_nat_plain; reflexivity.
Qed.

Lemma app_nonempty a b : b <> EmptyString -> a ++ b <> EmptyString.
Proof. destruct a, b; rewrite ?app_cons, ?app_nil; congruence. Qed.

Lemma format_f0_nonempty x : Num.format_f0 x <> EmptyString.
Proof.
  destruct x; cbn [Num.format_f0]; try discriminate;
    apply app_nonempty; try discriminate. apply format_nat_nonempty.
Qed.

Lemma format_int_f0_spec n a :
  Num.format_int_f0 n = Some a -> plain a /\ a <> EmptyString.
Proof.
  unfold Num.format_int_f0. intros H.
  assert (exists x, a = Num.format_f0 x) as [x ->]
    by (destruct (binary_normalize _ _ _ _ _) as [s|s| |s m e];
        [exists (S754_zero s)|discriminate|exists S754_nan
        |exists (S754_finite s m e)]; now injection H).
  split; auto using format_f0_plain, format_f0_nonempty.
Qed.

(** ** [extract_summary] *)

Lemma tidy_trimmed value : Py.strip (tidy value) = tidy value.
Proof. apply strip_idem. Qed.

Lemma rupees_trimmed t :
  Py.strip t = t -> t <> EmptyString -> Py.strip ("Rs. " ++ t) = "Rs. " ++ t.
Proof. intros. now apply (trimmed_prefixed "R" "s. " t). Qed.

Lemma add_rupees_trimmed cleaned_value v :
  Py.strip cleaned_value = cleaned_value ->
  add_rupees cleaned_value = Some v -> Py.strip v = v.
Proof.
  intros Ht. unfold add_rupees.
  destruct (matches grouped_number cleaned_value) eqn:Eg.
  - intros [= <-]. apply rupees_trimmed; [exact Ht|].
    intros ->. discriminate Eg.
  - destruct (matches plain_number cleaned_value); [|now intros [= <-]].
    destruct (Num.float cleaned_value) as [x|]; [|discriminate]. cbn.
    destruct (Num.int x) as [n|]; [|discriminate]. cbn.
    destruct (Num.format_int_f0 n) as [a|] eqn:Ea; [|discriminate]. cbn.
    intros [= <-]. apply format_int_f0_spec in Ea as [Hp Hne].
    apply rupees_trimmed; [now apply solid_trimmed|exact Hne].
Qed.

Lemma stored_value_trimmed field_name value v :
  stored_value field_name value = Some v -> Py.strip v = v.
Proof.
  unfold stored_value. destruct (str_in _ _).
  - apply add_rupees_trimmed, tidy_trimmed.
  - intros [= <-]. apply tidy_trimmed.
Qed.

(** What the loop over the fields guarantees of an entry of its result:
    it was in the summary before, or it is the stored value of a field of
    the list whose extracted value is not blank. *)
Lemma summary_loop_entry text items acc s k v :
  summary_loop text items acc = Some s -> s !! k = Some v ->
  acc !! k = Some v
  \/ exists patterns,
       List.In (k, patterns) items
       /\ blank (extract_field text patterns) = false
       /\ stored_value k (extract_field text patterns) = Some v.
Proof.
  revert acc. induction items as [|[field_name patterns] items IH];
    intros acc; cbn [summary_loop].
  - intros [= ->]. auto.
  - unfold summary_step at 1.
    destruct (Py.truthy (Py.strip (extract_field text patterns))) eqn:Et.
    + destruct (stored_value field_name (extract_field text patterns))
        as [cleaned_value|] eqn:Es; [|discriminate]. simpl.
      intros Hl Hk. destruct (IH _ Hl Hk) as [Hacc|(ps & Hin & Hb & Hs)].
      * destruct (decide (field_name = k)) as [->|Hne].
        -- rewrite lookup_insert_eq in Hacc. injection Hacc as ->.
           right. exists patterns. unfold blank. rewrite Et. cbn. auto.
        -- rewrite lookup_insert_ne in Hacc by exact Hne. auto.
      * right. exists ps. cbn. auto.
    + simpl. intros Hl Hk. destruct (IH _ Hl Hk) as [Hacc|(ps & Hin & Hb & Hs)];
        [auto|]. right. exists ps. cbn. auto.
Qed.

Lemma produced_trimmed s k v :
  produced s -> s !! k = Some v -> Py.strip v = v.
Proof.
  intros (text & cfg & Hs) Hk. unfold extract_summary in Hs.
  destruct (summary_loop_entry _ _ _ _ _ _ Hs Hk) as [H|(ps & _ & _ & H)].
  - rewrite lookup_empty in H. discriminate.
  - eapply stored_value_trimmed, H.
Qed.

(** ** The merge *)

Lemma merge_item_kept key value combined k v :
  combined !! k = Some v -> blank v = false ->
  merge_item key value combined !! k = Some v.
Proof.
  intros Hk Hb. unfold merge_item.
  destruct (decide (key = k)) as [->|Hne].
  - rewrite Hk. unfold blank in Hb. now rewrite Hb.
  - destruct (combined !! key) as [old|]; [destruct (negb _)|];
      rewrite ?lookup_insert_ne by exact Hne; exact Hk.
Qed.

Lemma merge_kept combined file_summary k v :
  combined !! k = Some v -> blank v = false ->
  merge combined file_summary !! k = Some v.
Proof.
  intros Hk Hb. unfold merge.
  apply (map_fold_weak_ind (fun r _ => r !! k = Some v)); [exact Hk|].
  intros i x m r _ Hr. now apply merge_item_kept.
Qed.

Lemma merge_all_kept combined file_summaries k v :
  combined !! k = Some v -> blank v = false ->
  merge_all combined file_summaries !! k = Some v.
Proof.
  unfold merge_all. revert combined.
  induction file_summaries as [|s ss IH]; intros combined Hk Hb; [exact Hk|].
  cbn [fold_left]. apply IH; [|exact Hb]. now apply merge_kept.
Qed.

Lemma merge_item_trimmed key value combined :
  Py.strip value = value -> trimmed_values combined ->
  trimmed_values (merge_item key value combined).
Proof.
  intros Hv Hc k v. unfold merge_item.
  destruct (combined !! key) as [old|]; [destruct (negb _)|]; try apply Hc;
    (destruct (decide (key = k)) as [->|Hne];
     [rewrite lookup_insert_eq; now intros [= <-]
     |rewrite lookup_insert_ne by exact Hne; apply Hc]).
Qed.

Lemma merge_trimmed combined file_summary :
  trimmed_values combined -> trimmed_values file_summary ->
  trimmed_values (merge combined file_summary).
Proof.
  intros Hc. unfold merge.
  apply (map_fold_weak_ind
           (fun r m => trimmed_values m -> trimmed_values r)); [auto|].
  intros i x m r Hi IH Hm. apply merge_item_trimmed.
  - apply (Hm i). apply lookup_insert_eq.
  - apply IH. intros k v Hk. apply (Hm k).
    rewrite lookup_insert_ne; [exact Hk|]. intros ->. congruence.
Qed.

Lemma merge_all_trimmed combined file_summaries :
  trimmed_values combined -> Forall trimmed_values file_summaries ->
  trimmed_values (merge_all combined file_summaries).
Proof.
  unfold merge_all. intros Hc Hs. revert combined Hc.
  induction Hs as [|s ss Hs _ IH]; intros combined Hc; [exact Hc|].
  cbn [fold_left]. apply IH. now apply merge_trimmed.
Qed.

(** ** Values that are not numbers *)

Lemma in_set_digit c : in_set_fl no_flags [CDigit] c = Py.isdecimal c.
Proof. unfold in_set_fl, in_set. simpl. apply orb_false_r. Qed.

Lemma grouped_number_starts_with_digit c rest :
  Py.isdecimal c = false -> matches grouped_number (String c rest) = false.
Proof.
  intros Hc. unfold matches, match_, attempt, grouped_number, upto, digit.
  cbn [seqs fold_right matcher times guard pos Nat.eqb].
  rewrite step_char_cons, in_set_digit, Hc. reflexivity.
Qed.

Lemma plain_number_starts_with_digit c rest :
  Py.isdecimal c = false -> matches plain_number (String c rest) = false.
Proof.
  intros Hc. unfold matches, match_, attempt, plain_number, plus, digit.
  cbn [seqs fold_right matcher times guard pos Nat.eqb].
  rewrite step_char_cons, in_set_digit, Hc. reflexivity.
Qed.

Lemma add_rupees_other c rest :
  Py.isdecimal c = false -> add_rupees (String c rest) = Some (String c rest).
Proof.
  intros Hc. unfold add_rupees.
  now rewrite grouped_number_starts_with_digit, plain_number_starts_with_digit.
Qed.

(** ** The loop of the bill recogniser *)

Lemma str_app_assoc a b c : (a ++ b) ++ c = a ++ (b ++ c).
Proof.
  induction a as [|x a IH]; [reflexivity|]. rewrite !app_cons. now rewrite IH.
Qed.

Lemma str_app_nil_r a : a ++ EmptyString = a.
Proof. induction a as [|x a IH]; [reflexivity|]. rewrite app_cons. now rewrite IH. Qed.

Lemma for_rows_bill rows formatted total :
  for_rows bill_row rows (formatted, total)
  = items ← bill_items rows;
    Some (formatted ++ concat_lines (map bill_line items),
          fold_left (fun t item => Num.add t item.2) items total).
Proof.
  revert formatted total. induction rows as [|row rows IH]; intros formatted total.
  - cbn. now rewrite str_app_nil_r.
  - destruct row as [|s_no [|desc [|amt [|]]]]; try reflexivity.
    change (for_rows bill_row ([s_no; desc; amt] :: rows) (formatted, total))
      with (add_item amt
              (fun a => "- " ++ Py.strip desc ++ ": Rs. " ++ a ++ LF)
              (formatted, total)
            ≫= for_rows bill_row rows).
    cbn [bill_items]. unfold add_item. destruct (numeric amt).
    + destruct (Num.float _) as [a|]; [|reflexivity]. simpl. rewrite IH.
      destruct (bill_items rows) as [items|]; [|reflexivity]. simpl.
      unfold bill_line at 2. simpl. now rewrite !str_app_assoc.
    + simpl. apply IH.
Qed.

Lemma recognise_bill rows :
  recognise bill_row "- Total: Rs. " rows
  = items ← bill_items rows; Some (bill_report items).
Proof.
  unfold recognise. rewrite for_rows_bill.
  destruct (bill_items rows) as [items|]; [|reflexivity]. simpl.
  unfold with_total, bill_report, bill_total. rewrite app_nil.
  destruct (Num.is_positive _); [reflexivity|]. now rewrite str_app_nil_r.
Qed.

Lemma raw_block_bill field_value :
  Py.truthy field_value = true ->
  Re.findall IGNORECASE_DOTALL pattern_bill_items (normalise field_value) <> [] ->
  extract_and_format_raw_block field_value
  = items ← bill_items (Re.findall IGNORECASE_DOTALL pattern_bill_items
                          (normalise field_value));
    Some (bill_report items).
Proof.
  intros Ht Hr. unfold extract_and_format_raw_block. rewrite Ht. cbn [negb].
  destruct (findall _ _ _) as [|row rows]; [congruence|]. apply recognise_bill.
Qed.

Lemma judge_na clean_value :
  Py.lower clean_value = "na" -> judge clean_value = Continue.
Proof. intros H. unfold judge. now rewrite H. Qed.

(** ** Soundness of the matcher *)

Lemma len_app a b : Py.len (a ++ b) = Py.len a + Py.len b.
Proof.
  unfold Py.len. induction a as [|c a IH]; [reflexivity|].
  rewrite app_cons. cbn [String.length]. now rewrite IH.
Qed.

Lemma drop_app_len a b : Py.drop (Py.len a) (a ++ b) = b.
Proof. induction a as [|c a IH]; [reflexivity|]. rewrite app_cons. exact IH. Qed.

Lemma take_app_len a b : Py.take (Py.len a) (a ++ b) = a.
Proof.
  induction a as [|c a IH]; [reflexivity|]. rewrite app_cons.
  cbn [Py.len String.length Py.take]. unfold Py.len in IH. now rewrite IH.
Qed.

Lemma drop_drop n m s : Py.drop m (Py.drop n s) = Py.drop (n + m) s.
Proof.
  revert s. induction n as [|n IH]; intros s; [reflexivity|].
  destruct s as [|c s]; [now destruct m|]. apply IH.
Qed.

Lemma concat_lines_app xs ys :
  concat_lines (xs ++ ys) = concat_lines xs ++ concat_lines ys.
Proof.
  induction xs as [|x xs IH]; [reflexivity|]. cbn [app concat_lines].
  now rewrite IH, str_app_assoc.
Qed.

Section Sound.
Context (fl : flags) (text : string) (P : nat -> string -> Prop).

Abbreviation ok := (state_ok text P).
Abbreviation snd_ := (sound text P).

Lemma after_refl st : after st EmptyString st.
Proof. split; [reflexivity|]. cbn. lia. Qed.

Lemma after_trans st1 w1 st2 w2 st3 :
  after st1 w1 st2 -> after st2 w2 st3 -> after st1 (w1 ++ w2) st3.
Proof.
  intros [H1 P1] [H2 P2]. split.
  - rewrite H1, H2. now rewrite str_app_assoc.
  - rewrite len_app. lia.
Qed.

Lemma slice_after st w st' :
  Py.drop (pos st) text = rst st -> after st w st' ->
  slice text (pos st) (pos st') = w.
Proof.
  intros Hd [Hr Hp]. unfold slice. rewrite Hd, Hr, Hp.
  replace (pos st + Py.len w - pos st) with (Py.len w) by lia.
  apply take_app_len.
Qed.

Lemma sound_weaken m (L L' : string -> Prop) :
  snd_ m L -> (forall w, L w -> L' w) -> snd_ m L'.
Proof.
  intros Hm HL st k res Hr Hok.
  destruct (Hm st k res Hr Hok) as (st' & w & ? & ? & ? & ?). eauto 10.
Qed.

Lemma sound_step_char p : snd_ (step_char p) (one_char p).
Proof.
  intros [p0 b r cs] k res. destruct r as [|c r]; [discriminate|].
  rewrite step_char_cons. destruct (p c) eqn:Ec; [|discriminate].
  intros Hk [Hd Hc]. cbn [pos rst caps] in *.
  eexists _, (String c EmptyString). split; [exact Hk|].
  split; [|split; [|split]]; cbn [pos rst caps].
  - split; [reflexivity|]. cbn. lia.
  - now exists c.
  - replace (S p0) with (p0 + 1) by lia. rewrite <- drop_drop, Hd. reflexivity.
  - exact Hc.
Qed.

Lemma sound_guard b : snd_ (guard b) (fun w => w = EmptyString).
Proof.
  intros st k res. unfold guard. destruct (b st); [|discriminate].
  intros Hk Hok. exists st, EmptyString. auto using after_refl.
Qed.

Lemma sound_eps : snd_ (fun st k => k st) (fun w => w = EmptyString).
Proof. intros st k res Hk Hok. exists st, EmptyString. auto using after_refl. Qed.

Lemma sound_seq m1 m2 (L1 L2 : string -> Prop) :
  snd_ m1 L1 -> (forall st, snd_ (m2 st) L2) ->
  snd_ (fun st k => m1 st (fun st' => m2 st st' k))
       (fun w => exists w1 w2, w = w1 ++ w2 /\ L1 w1 /\ L2 w2).
Proof.
  intros H1 H2 st k res Hr Hok.
  destruct (H1 _ _ _ Hr Hok) as (st1 & w1 & Hk1 & Ha1 & HL1 & Hok1).
  destruct (H2 _ _ _ _ Hk1 Hok1) as (st2 & w2 & Hk2 & Ha2 & HL2 & Hok2).
  exists st2, (w1 ++ w2). eauto 10 using after_trans.
Qed.

Lemma sound_alt m1 m2 (L1 L2 : string -> Prop) :
  snd_ m1 L1 -> snd_ m2 L2 ->
  snd_ (fun st k => orelse (m1 st k) (m2 st k)) (fun w => L1 w \/ L2 w).
Proof.
  intros H1 H2 st k res Hr Hok. unfold orelse in Hr.
  destruct (m1 st k) as [x|] eqn:E1.
  - injection Hr as ->.
    destruct (H1 _ _ _ E1 Hok) as (st' & w & ? & ? & ? & ?). eauto 10.
  - destruct (H2 _ _ _ Hr Hok) as (st' & w & ? & ? & ? & ?). eauto 10.
Qed.

Lemma sound_lit s : snd_ (lit fl s) (lit_lang fl s).
Proof.
  induction s as [|p s IH]; intros st k res; cbn [lit].
  - intros Hk Hok. exists st, EmptyString. cbn. auto using after_refl.
  - intros Hr Hok.
    destruct (sound_step_char _ _ _ _ Hr Hok)
      as (st1 & w1 & Hk1 & Ha1 & (c & -> & Hc) & Hok1).
    destruct (IH _ _ _ Hk1 Hok1) as (st2 & w2 & Hk2 & Ha2 & HL2 & Hok2).
    exists st2, (String c w2). split; [exact Hk2|].
    split; [exact (after_trans _ _ _ _ _ Ha1 Ha2)|]. cbn. auto.
Qed.

Lemma sound_times m (L : string -> Prop) n :
  snd_ m L ->
  snd_ (times m n)
       (fun w => exists ws, w = concat_lines ws /\ Forall L ws /\ length ws = n).
Proof.
  intros Hm. induction n as [|n IH]; intros st k res; cbn [times].
  - intros Hk Hok. exists st, EmptyString.
    split; [exact Hk|]. split; [apply after_refl|]. split; [|exact Hok].
    now exists [].
  - intros Hr Hok.
    destruct (Hm _ _ _ Hr Hok) as (st1 & w1 & Hk1 & Ha1 & HL1 & Hok1).
    destruct (IH _ _ _ Hk1 Hok1)
      as (st2 & w2 & Hk2 & Ha2 & (ws & -> & Hws & Hlen) & Hok2).
    exists st2, (w1 ++ concat_lines ws). split; [exact Hk2|].
    split; [exact (after_trans _ _ _ _ _ Ha1 Ha2)|]. split; [|exact Hok2].
    exists (w1 :: ws). cbn. auto.
Qed.

Lemma at_most_dec hi n :
  exhausted hi = false -> at_most (dec_opt hi) n -> at_most hi (S n).
Proof. destruct hi as [[|h]|]; cbn; try discriminate; intros; lia. Qed.

Lemma at_most_one hi : exhausted hi = false -> at_most hi 1.
Proof. destruct hi as [[|h]|]; cbn; try discriminate; intros; lia. Qed.

Lemma at_most_zero hi : at_most hi 0.
Proof. destruct hi; cbn; [lia|exact I]. Qed.

Lemma sound_loop m (L : string -> Prop) greedy fuel hi :
  snd_ m L ->
  snd_ (loop m greedy fuel hi)
       (fun w => exists ws, w = concat_lines ws /\ Forall L ws
                            /\ at_most hi (length ws)).
Proof.
  intros Hm. revert hi. induction fuel as [|fuel IH]; intros hi st k res.
  - cbn [loop]. intros Hk Hok. exists st, EmptyString.
    split; [exact Hk|]. split; [apply after_refl|]. split; [|exact Hok].
    exists []. auto using at_most_zero.
  - cbn [loop]. destruct (exhausted hi) eqn:Ex.
    { intros Hk Hok. exists st, EmptyString.
      split; [exact Hk|]. split; [apply after_refl|]. split; [|exact Hok].
      exists []. auto using at_most_zero. }
    intros Hr Hok.
    assert (Hstop : k st = Some res ->
              exists st' w, k st' = Some res /\ after st w st'
                /\ (exists ws, w = concat_lines ws /\ Forall L ws
                               /\ at_most hi (length ws))
                /\ ok st').
    { intros Hk. exists st, EmptyString.
      split; [exact Hk|]. split; [apply after_refl|]. split; [|exact Hok].
      exists []. auto using at_most_zero. }
    assert (Hmore :
              m st (fun st' => if Nat.ltb (pos st) (pos st')
                               then loop m greedy fuel (dec_opt hi) st' k
                               else k st') = Some res ->
              exists st' w, k st' = Some res /\ after st w st'
                /\ (exists ws, w = concat_lines ws /\ Forall L ws
                               /\ at_most hi (length ws))
                /\ ok st').
    { intros Hb.
      destruct (Hm _ _ _ Hb Hok) as (st1 & w1 & Hk1 & Ha1 & HL1 & Hok1).
      destruct (Nat.ltb (pos st) (pos st1)).
      - destruct (IH _ _ _ _ Hk1 Hok1)
          as (st2 & w2 & Hk2 & Ha2 & (ws & -> & Hws & Hlen) & Hok2).
        exists st2, (w1 ++ concat_lines ws). split; [exact Hk2|].
        split; [exact (after_trans _ _ _ _ _ Ha1 Ha2)|]. split; [|exact Hok2].
        exists (w1 :: ws). cbn [concat_lines length].
        auto using at_most_dec.
      - exists st1, w1. split; [exact Hk1|]. split; [exact Ha1|].
        split; [|exact Hok1]. exists [w1]. cbn [concat_lines length].
        rewrite str_app_nil_r. auto using at_most_one. }
    unfold orelse in Hr. destruct greedy.
    + destruct (m st _) as [x|] eqn:Eb; [injection Hr as ->; auto|auto].
    + destruct (k st) as [x|] eqn:Ek; [injection Hr as ->; auto|auto].
Qed.

Lemma sound_rep m (L : string -> Prop) greedy lo hi :
  snd_ m L ->
  snd_ (fun st k =>
          times m lo st
            (fun st' => loop m greedy (S (Py.len (rst st'))) (sub_opt hi lo) st' k))
       (repeated L lo hi).
Proof.
  intros Hm.
  eapply sound_weaken.
  - apply (sound_seq (times m lo)
             (fun _ st' k => loop m greedy (S (Py.len (rst st'))) (sub_opt hi lo) st' k)).
    + apply sound_times, Hm.
    + intros _ st k res. apply sound_loop, Hm.
  - intros w (w1 & w2 & -> & (ws1 & -> & H1 & Hl1) & (ws2 & -> & H2 & Hl2)).
    exists (ws1 ++ ws2)%list. rewrite concat_lines_app, length_app.
    split; [reflexivity|]. split; [now apply Forall_app|].
    split; [lia|]. now replace (length ws1 + length ws2 - lo) with (length ws2) by lia.
Qed.

Lemma sound_group m (L : string -> Prop) i :
  snd_ m L -> (forall w, L w -> P i w) ->
  snd_ (fun st k => m st (fun st' => k (close_group i (pos st) st'))) L.
Proof.
  intros Hm HP st k res Hr Hok.
  destruct (Hm _ _ _ Hr Hok) as (st1 & w & Hk & Ha & HL & Hd1 & Hc1).
  exists (close_group i (pos st) st1), w. split; [exact Hk|].
  split; [exact Ha|]. split; [exact HL|]. split; [exact Hd1|].
  intros j a b [[= <- <- <-]|Hin]; [|now apply Hc1].
  rewrite (slice_after st w st1); [now apply HP|apply Hok|exact Ha].
Qed.

Lemma matcher_sound r base :
  groups_respect fl P r base -> snd_ (matcher fl r base) (lang fl r).
Proof.
  revert base. induction r as [| | | | |r1 IH1 r2 IH2|r1 IH1 r2 IH2
                               |greedy lo hi r1 IH1|r1 IH1| | |];
    intros base Hg; cbn [matcher lang].
  - apply sound_eps.
  - apply sound_lit.
  - apply sound_step_char.
  - apply sound_step_char.
  - apply sound_step_char.
  - destruct Hg as [Hg1 Hg2].
    apply (sound_seq _ (fun _ => matcher fl r2 (base + ngroups r1))); auto.
  - destruct Hg as [Hg1 Hg2]. apply sound_alt; auto.
  - apply sound_rep. auto.
  - destruct Hg as [HP Hg1]. apply sound_group; auto.
  - apply sound_guard.
  - apply sound_guard.
  - apply sound_guard.
Qed.

End Sound.

(** ** The groups of the matches of [findall] *)

Lemma drop_step p text c rest :
  Py.drop p text = String c rest -> Py.drop (S p) text = rest.
Proof.
  intros H. replace (S p) with (p + 1) by lia. now rewrite <- drop_drop, H.
Qed.

Lemma walk_rows fl r text (Q : list string -> Prop) :
  (forall p before m,
     attempt fl r text p before (Py.drop p text) = Some m ->
     Q (map unNone (groups m))) ->
  forall rest skip p before,
    Py.drop p text = rest ->
    Forall Q (walk fl r text (fun m out => map unNone (groups m) :: out)
                (fun _ out => out) [] skip p before rest).
Proof.
  intros HQ. induction rest as [|c rest IH]; intros skip p before Hd.
  - destruct skip; cbn [walk]; [|constructor].
    destruct (attempt _ _ _ _ _ _) as [m|] eqn:E; constructor; [|constructor].
    apply (HQ p before). now rewrite Hd.
  - pose proof (drop_step _ _ _ _ Hd) as Hd'.
    destruct skip; cbn [walk]; [|now apply IH].
    destruct (attempt _ _ _ _ _ _) as [m|] eqn:E; [|now apply IH].
    constructor; [apply (HQ p before); now rewrite Hd|].
    destruct (Nat.eqb _ _); now apply IH.
Qed.

Lemma findall_rows fl r text (Q : list string -> Prop) :
  (forall p before m,
     attempt fl r text p before (Py.drop p text) = Some m ->
     Q (map unNone (groups m))) ->
  Forall Q (findall fl r text).
Proof. intros HQ. now apply walk_rows. Qed.

Lemma find_cap_in i cs span :
  find_cap i cs = Some span -> List.In (i, span) cs.
Proof.
  induction cs as [|[j sp] cs IH]; cbn [find_cap]; [discriminate|].
  destruct (Nat.eqb i j) eqn:E.
  - intros [= ->]. apply Nat.eqb_eq in E as ->. now left.
  - intros H. right. auto.
Qed.

(** A group of a match has the property that the pattern gives to its
    number. *)
Lemma attempt_group fl r text (P : nat -> string -> Prop) p before m :
  groups_respect fl P r 0 ->
  attempt fl r text p before (Py.drop p text) = Some m ->
  exists cs,
    groups m = map (fun i => group_text text cs (S i)) (seq 0 (ngroups r))
    /\ forall i w, group_text text cs i = Some w -> P i w.
Proof.
  intros Hg. unfold attempt.
  destruct (matcher _ _ _ _ _) as [st|] eqn:E; [|discriminate]. intros [= <-].
  destruct (matcher_sound fl text P r 0 Hg _ _ _ E)
    as (st' & w & [= ->] & _ & _ & _ & Hc).
  { split; [reflexivity|]. intros i a b []. }
  exists (caps st). split; [reflexivity|]. intros i w0. unfold group_text.
  destruct (find_cap i (caps st)) as [[a b]|] eqn:Ef; [|discriminate].
  intros [= <-]. eapply Hc, find_cap_in, Ef.
Qed.

(** ** The amounts of the bill recogniser *)

Ltac each_char c :=
  destruct c as [[] [] [] [] [] [] [] []]; vm_compute; try reflexivity;
  try discriminate.

Lemma amount_char c :
  in_set_fl IGNORECASE_DOTALL [CDigit; CChar ","] c = true ->
  Py.isdecimal c || Ascii.eqb c "," = true.
Proof. each_char c. Qed.

Lemma digit_char c :
  in_set_fl IGNORECASE_DOTALL [CDigit] c = true -> Py.isdecimal c = true.
Proof. each_char c. Qed.

Lemma point_char c : eq_char_fl IGNORECASE_DOTALL "." c = true -> c = "."%char.
Proof. each_char c. Qed.

Lemma forallb_str_app p a b :
  Py.forallb_str p (a ++ b) = Py.forallb_str p a && Py.forallb_str p b.
Proof.
  induction a as [|c a IH]; [reflexivity|]. rewrite app_cons.
  cbn [Py.forallb_str]. now rewrite IH, andb_assoc.
Qed.

Lemma chars_of_class (p q : ascii -> bool) ws :
  (forall c, p c = true -> q c = true) ->
  Forall (one_char p) ws -> Py.forallb_str q (concat_lines ws) = true.
Proof.
  intros Hpq. induction 1 as [|w ws (c & -> & Hc) _ IH]; [reflexivity|].
  cbn [concat_lines]. rewrite app_cons, app_nil. cbn [Py.forallb_str].
  now rewrite (Hpq _ Hc), IH.
Qed.

Lemma lang_amount w : lang IGNORECASE_DOTALL amount w -> amount_shape w.
Proof.
  intros (body & frac & -> & (ws & -> & Hws & _) & (fs & -> & Hfs & _ & Hn)).
  exists (concat_lines ws), (concat_lines fs). split; [reflexivity|].
  split; [apply (chars_of_class _ _ _ amount_char Hws)|].
  cbn in Hn. destruct Hfs as [|f fs Hf Hfs]; [now left|].
  destruct Hfs; [|cbn in Hn; lia]. right.
  destruct Hf as (w1 & w2 & -> & Hpoint & (ds & -> & Hds & _)).
  destruct w1 as [|c [|]]; cbn in Hpoint; try tauto.
  destruct Hpoint as [Hp _]. apply point_char in Hp as ->.
  exists (concat_lines ds). cbn [concat_lines].
  rewrite str_app_nil_r, app_cons, app_nil. split; [reflexivity|].
  apply (chars_of_class _ _ _ digit_char Hds).
Qed.

Lemma bill_groups :
  groups_respect IGNORECASE_DOTALL (fun i w => i = 3 -> amount_shape w)
    pattern_bill_items 0.
Proof.
  cbn. repeat split; try discriminate. intros w Hw _. now apply lang_amount.
Qed.

Lemma bill_rows_ok text :
  Forall bill_row_ok (findall IGNORECASE_DOTALL pattern_bill_items text).
Proof.
  apply findall_rows. intros p before m Hm.
  destruct (attempt_group _ _ _ _ _ _ _ bill_groups Hm) as (cs & -> & Hc).
  cbn [ngroups pattern_bill_items seqs fold_right amount plus lazy_star star
         opt upto digit space Nat.add seq map].
  eexists _, _, _. split; [reflexivity|].
  destruct (group_text text cs 3) as [w|] eqn:E; [right|now left].
  now apply (Hc 3).
Qed.

(** ** An amount that is numeric converts to a float *)

Lemma prefix_nil s : String.prefix EmptyString s = true.
Proof. now destruct s. Qed.

Lemma replace_char x s :
  Py.replace (String x EmptyString) EmptyString s = remove_char x s.
Proof.
  unfold Py.replace. induction s as [|c s IH]; [reflexivity|].
  cbn [Py.replace_go remove_char String.prefix].
  destruct (ascii_dec x c) as [<-|Hne].
  - rewrite Ascii.eqb_refl, prefix_nil. cbn [Py.len String.length Nat.sub].
    rewrite app_nil. exact IH.
  - destruct (Ascii.eqb_spec c x) as [->|_]; [congruence|]. now rewrite IH.
Qed.

Lemma remove_char_app x a b :
  remove_char x (a ++ b) = remove_char x a ++ remove_char x b.
Proof.
  induction a as [|c a IH]; [reflexivity|]. rewrite app_cons.
  cbn [remove_char]. rewrite IH. now destruct (Ascii.eqb c x).
Qed.

Lemma remove_char_absent x (p : ascii -> bool) s :
  p x = false -> Py.forallb_str p s = true -> remove_char x s = s.
Proof.
  intros Hx. induction s as [|c s IH]; [reflexivity|]. cbn.
  intros H. apply andb_true_iff in H as [Hc Hs].
  destruct (Ascii.eqb_spec c x) as [->|_]; [congruence|]. now rewrite IH.
Qed.

Lemma remove_comma_body body :
  money_body body = true ->
  Py.forallb_str Py.isdecimal (remove_char "," body) = true.
Proof.
  unfold money_body. induction body as [|c body IH]; [reflexivity|]. cbn.
  intros H. apply andb_true_iff in H as [Hc Hs].
  destruct (Ascii.eqb_spec c ",") as [->|Hne]; [auto|].
  cbn [Py.forallb_str]. rewrite (IH Hs), andb_true_r.
  apply orb_true_iff in Hc as [Hc|Hc]; [exact Hc|discriminate Hc].
Qed.

Lemma digits_plain ds :
  Py.forallb_str Py.isdecimal ds = true -> plain ds.
Proof.
  unfold plain. induction ds as [|c ds IH]; [reflexivity|]. cbn.
  intros H. apply andb_true_iff in H as [Hc Hs]. rewrite (IH Hs), orb_false_r.
  revert Hc. clear. destruct c as [[] [] [] [] [] [] [] []]; vm_compute; congruence.
Qed.

Lemma read_digits_app ds n k rest :
  Py.forallb_str Py.isdecimal ds = true ->
  match rest with String c _ => Py.isdecimal c = false | EmptyString => True end ->
  exists n', Num.read_digits n k (ds ++ rest) = (n', k + Py.len ds, rest).
Proof.
  intros Hds Hrest. revert n k. induction ds as [|c ds IH]; intros n k.
  - rewrite app_nil. exists n. cbn [Py.len String.length].
    rewrite Nat.add_0_r. destruct rest as [|c r]; [reflexivity|].
    cbn [Num.read_digits]. now rewrite Hrest.
  - cbn in Hds. apply andb_true_iff in Hds as [Hc Hs].
    rewrite app_cons. cbn [Num.read_digits]. rewrite Hc.
    destruct (IH Hs (10 * n + Num.digit_value c)%N (S k)) as [n' ->].
    exists n'. cbn [Py.len String.length]. f_equal. f_equal. unfold Py.len. lia.
Qed.

Lemma float_of_digits ds frac :
  Py.forallb_str Py.isdecimal ds = true ->
  (frac = EmptyString
   \/ exists fs, frac = String "." fs /\ Py.forallb_str Py.isdecimal fs = true) ->
  Py.truthy (remove_char "." (ds ++ frac)) = true ->
  is_Some (Num.float (ds ++ frac)).
Proof.
  intros Hds Hfrac Hne. unfold Num.float.
  assert (Py.strip (ds ++ frac) = ds ++ frac) as ->.
  { apply solid_trimmed, plain_app; [now apply digits_plain|].
    destruct Hfrac as [->|(fs & -> & Hfs)]; [reflexivity|].
    apply (plain_app "."); [reflexivity|now apply digits_plain]. }
  destruct Hfrac as [->|(fs & -> & Hfs)].
  - destruct (read_digits_app ds 0%N 0 EmptyString Hds I) as [n ->].
    destruct ds as [|c ds]; [discriminate Hne|]. cbn. eauto.
  - destruct (read_digits_app ds 0%N 0 (String "." fs) Hds eq_refl) as [n ->].
    destruct (read_digits_app fs n 0 EmptyString Hfs I) as [n' Hr].
    rewrite str_app_nil_r in Hr. rewrite Ascii.eqb_refl, Hr.
    destruct (Nat.eqb_spec (0 + Py.len ds + (0 + Py.len fs)) 0) as [Hz|_];
      [|eauto].
    exfalso. destruct ds, fs; cbn in Hz; try lia. discriminate Hne.
Qed.

Lemma float_of_amount amt :
  amount_shape amt -> numeric amt = true ->
  is_Some (Num.float (Py.replace "," EmptyString amt)).
Proof.
  intros (body & frac & -> & Hbody & Hfrac). unfold numeric.
  rewrite !replace_char, !remove_char_app.
  assert (remove_char "," frac = frac) as ->.
  { destruct Hfrac as [->|(fs & -> & Hfs)]; [reflexivity|].
    change (String "." fs) with ("." ++ fs). rewrite remove_char_app.
    now rewrite (remove_char_absent "," Py.isdecimal fs). }
  intros Hn. apply andb_true_iff in Hn as [Hn _].
  rewrite <- remove_char_app in Hn.
  apply float_of_digits; auto using remove_comma_body.
Qed.

Lemma bill_items_total rows :
  Forall bill_row_ok rows -> is_Some (bill_items rows).
Proof.
  induction 1 as [|row rows (s_no & desc & amt & -> & Hamt) _ [items IH]];
    [now eexists|].
  cbn [bill_items]. destruct (numeric amt) eqn:En; [|now exists items].
  destruct Hamt as [->|Hamt]; [discriminate En|].
  destruct (float_of_amount amt Hamt En) as [a ->]. rewrite IH. now eexists.
Qed.


Lemma stored_value_money field_name value :
  str_in (Py.lower field_name) money_fields = true ->
  stored_value field_name value = add_rupees (tidy value).
Proof. intros H. unfold stored_value. now rewrite H. Qed.

(** * The claims *)

(** C1: the result of [extract_field] is decided by the first pattern of
    the list that matches the text at all: when no pattern of [before]
    matches and [pattern] does, the result is what the match of [pattern]
    gives; it is the same whatever patterns follow, and it is the result
    for [pattern] alone. *)
Theorem extract_field_first_match_wins text before pattern after after' m :
  Forall (fun q => Re.search IGNORECASE_DOTALL q text = None) before ->
  Re.search IGNORECASE_DOTALL pattern text = Some m ->
  extract_field text (before ++ pattern :: after) = on_match m
  /\ extract_field text (before ++ pattern :: after)
     = extract_field text (before ++ pattern :: after')
  /\ extract_field text (before ++ pattern :: after)
     = extract_field text [pattern].
Proof.
  intros Hb Hm. rewrite !(extract_field_skip _ _ _ Hb).
  cbn [extract_field]. now rewrite Hm.
Qed.

Lemma extract_field_first_match_wins_witness :
  extract_field "Name: Asha Rao"
    ([status_pattern] ++ name_pattern :: [Grp (plus word)])
  = extract_field "Name: Asha Rao" [name_pattern].
Proof.
  refine (proj2 (proj2 (extract_field_first_match_wins
            "Name: Asha Rao" [status_pattern] name_pattern
            [Grp (plus word)] []
            {| m_start := 0; m_end := 14; group0 := "Name: Asha Rao";
               groups := [Some "Asha Rao"] |} _ _))).
  - constructor; [vm_compute; reflexivity|constructor].
  - vm_compute. reflexivity.
Defined.

(** C2, on the input where the code departs from it: the only group of
    the match of [Name:\s*] followed by a group holds [not mentioned],
    which the stop list rejects, and no other pattern is given; the loop
    over the groups ends without a value, yet the function returns the
    whole match and not the empty string. *)
Theorem extract_field_rejected_groups_full_match :
  Re.search IGNORECASE_DOTALL name_pattern "Name: not mentioned"
    = Some {| m_start := 0; m_end := 19; group0 := "Name: not mentioned";
              groups := [Some "not mentioned"] |}
  /\ judge (clean_group "not mentioned") = Continue
  /\ scan_groups [Some "not mentioned"] = None
  /\ extract_field "Name: not mentioned" [name_pattern]
     = "Name: not mentioned".
Proof. vm_compute. auto. Qed.

(** C3, on the input where the code departs from it: the group of the
    match holds [NA], whose cleaned value in lower case is [na]; the stop
    list and the length test reject it before the test for [na] is
    reached, and the function returns the whole match, not [NA]. *)
Theorem extract_field_na_candidate_rejected :
  Re.search IGNORECASE_DOTALL status_pattern "Status: NA"
    = Some {| m_start := 0; m_end := 10; group0 := "Status: NA";
              groups := [Some "NA"] |}
  /\ Py.lower (clean_group "NA") = "na"
  /\ judge (clean_group "NA") = Continue
  /\ extract_field "Status: NA" [status_pattern] = "Status: NA".
Proof. vm_compute. auto. Qed.

(** C4: the merge is first writer wins.  Once a field of the combined
    summary, built from the empty summary by merging summaries returned by
    [extract_summary], holds a value that is not empty, merging any later
    summaries leaves the value of the field as it is; and when a first
    summary gives the claim amount 50000 and a second one 60000, the
    combined summary keeps 50000. *)
Theorem merge_first_writer_wins :
  (forall earlier later field v,
     Forall produced earlier ->
     merge_all ∅ earlier !! field = Some v -> v <> EmptyString ->
     merge_all (merge_all ∅ earlier) later !! field = Some v
     /\ merge_all ∅ (earlier ++ later) !! field = Some v)
  /\ merge_all ∅ [ {[ "Claim Amount" := "50000" ]};
                   {[ "Claim Amount" := "60000" ]} ]
       !! "Claim Amount" = Some "50000".
Proof.
  split; [|vm_compute; reflexivity].
  intros earlier later field v He Hk Hne.
  assert (blank v = false) as Hb.
  { assert (Py.strip v = v) as Ht.
    { eapply (merge_all_trimmed ∅ earlier);
        [intros k w; now rewrite lookup_empty| |exact Hk].
      eapply Forall_impl; [exact He|].
      intros s Hs k w. now apply produced_trimmed. }
    unfold blank. rewrite Ht. now destruct v. }
  assert (merge_all (merge_all ∅ earlier) later !! field = Some v) as H
    by now apply merge_all_kept.
  split; [exact H|]. unfold merge_all in *. now rewrite fold_left_app.
Qed.

Lemma merge_first_writer_wins_witness :
  merge_all (merge_all ∅ [ {[ "Claim Amount" := "Rs. 50,000" ]} ])
            [ {[ "Claim Amount" := "Rs. 60,000" ]} ]
    !! "Claim Amount" = Some "Rs. 50,000".
Proof.
  refine (proj1 (proj1 merge_first_writer_wins
            [ {[ "Claim Amount" := "Rs. 50,000" ]} ]
            [ {[ "Claim Amount" := "Rs. 60,000" ]} ]
            "Claim Amount" "Rs. 50,000" _ _ _)).
  - constructor; [|constructor].
    exists "Claim Amount: 50000", claim_amount_config.
    vm_compute. reflexivity.
  - vm_compute. reflexivity.
  - discriminate.
Defined.

(** C5, with the input where the code departs from it.  In
    [extract_summary] the value stored for a field whose name, in lower
    case, is in the list of the monetary fields is the cleaned value with
    the prefix added: a number in groups of three digits keeps its text
    after the prefix, so 12,345.00 becomes Rs. 12,345.00; the number 12345
    becomes Rs. 12,345; a value that does not start with a digit, so one
    that carries the prefix already, is left as it is.  But a plain number
    goes through [int(float(...))]: the amount of 310 digits is read as
    the infinite float, whose conversion to an integer raises, and
    [extract_summary] raises with it in place of storing a value with the
    prefix; and a number of twenty digits comes back as another number. *)
Theorem money_values_get_rupee_prefix :
  (forall text cfg s field_name v,
     extract_summary text cfg = Some s -> s !! field_name = Some v ->
     str_in (Py.lower field_name) money_fields = true ->
     exists patterns,
       List.In (field_name, patterns) (fields cfg)
       /\ add_rupees (tidy (extract_field text patterns)) = Some v)
  /\ (forall cleaned_value,
        matches grouped_number cleaned_value = true ->
        add_rupees cleaned_value = Some ("Rs. " ++ cleaned_value))
  /\ add_rupees "12345" = Some "Rs. 12,345"
  /\ add_rupees "12,345.00" = Some "Rs. 12,345.00"
  /\ (forall c rest,
        Py.isdecimal c = false ->
        add_rupees (String c rest) = Some (String c rest))
  /\ add_rupees "Rs. 12,345" = Some "Rs. 12,345"
  /\ extract_summary "Claim Amount: 12345" claim_amount_config
     = Some {[ "Claim Amount" := "Rs. 12,345" ]}
  /\ extract_summary "Claim Amount: 12,345.00" claim_amount_config
     = Some {[ "Claim Amount" := "Rs. 12,345.00" ]}
  /\ add_rupees "12345678901234567890"
     = Some "Rs. 12,345,678,901,234,567,168"
  /\ matches plain_number huge_amount = true
  /\ Num.float huge_amount = Some (S754_infinity false)
  /\ add_rupees huge_amount = None
  /\ extract_field ("Claim Amount: " ++ huge_amount) [claim_amount_pattern]
     = huge_amount
  /\ extract_summary ("Claim Amount: " ++ huge_amount) claim_amount_config
     = None.
Proof.
  split; [|split; [|split; [|split; [|split; [|split; [|split]]]]]];
    [| | | | | | |repeat split; vm_compute; reflexivity].
  - intros text cfg s field_name v Hs Hk Hm.
    destruct (summary_loop_entry _ _ _ _ _ _ Hs Hk) as [H|(ps & Hin & _ & H)].
    + rewrite lookup_empty in H. discriminate.
    + exists ps. split; [exact Hin|]. now rewrite <- (stored_value_money _ _ Hm).
  - intros cleaned_value H. unfold add_rupees. now rewrite H.
  - vm_compute. reflexivity.
  - vm_compute. reflexivity.
  - apply add_rupees_other.
  - vm_compute. reflexivity.
  - vm_compute. reflexivity.
Qed.

Lemma money_values_get_rupee_prefix_witness :
  exists patterns,
    List.In ("Claim Amount", patterns) (fields claim_amount_config)
    /\ add_rupees (tidy (extract_field "Claim Amount: 12345" patterns))
       = Some "Rs. 12,345".
Proof.
  refine (proj1 money_values_get_rupee_prefix
            "Claim Amount: 12345" claim_amount_config
            {[ "Claim Amount" := "Rs. 12,345" ]} "Claim Amount" "Rs. 12,345"
            _ _ _); vm_compute; reflexivity.
Defined.

(** C6 as stated fails: on a bill of one row whose amount is zero the
    recogniser matches the row and the amount is numeric, but the output
    is the line of the row alone, with no line of the total. *)
Lemma raw_block_no_total_line :
  Re.findall IGNORECASE_DOTALL pattern_bill_items (normalise free_item)
    = [["1"; "x"; "0"]]
  /\ numeric "0" = true
  /\ extract_and_format_raw_block free_item = Some ("- x: Rs. 0" ++ LF)
  /\ Py.contains "Total" ("- x: Rs. 0" ++ LF) = false.
Proof. vm_compute. auto. Qed.

(** C6 as amended: on every input on which the bill recogniser matches a
    row or more, the function returns, for the rows whose amount is
    numeric, in their order, the line of each row, and after them the line
    of the total when the total is greater than zero, no such line
    otherwise; the rows whose amount is not numeric add nothing to the
    lines nor to the total.  On the two rows of the example the output is
    the two lines and the total 1,800.  When no row has a numeric amount
    the output is the empty string, as on the row whose amount is a
    comma. *)
Theorem raw_block_bill_report :
  (forall field_value,
     Py.truthy field_value = true ->
     Re.findall IGNORECASE_DOTALL pattern_bill_items (normalise field_value)
       <> [] ->
     exists items,
       bill_items (Re.findall IGNORECASE_DOTALL pattern_bill_items
                     (normalise field_value)) = Some items
       /\ extract_and_format_raw_block field_value
          = Some (bill_report items))
  /\ extract_and_format_raw_block room_and_medicine
     = Some ("- Room Rent: Rs. 1,500" ++ LF ++ "- Medicine: Rs. 300" ++ LF
             ++ "- Total: Rs. 1,800")
  /\ Re.findall IGNORECASE_DOTALL pattern_bill_items (normalise unpriced_item)
     = [["1"; "x"; ","]]
  /\ extract_and_format_raw_block unpriced_item = Some EmptyString.
Proof.
  split; [|repeat split; vm_compute; reflexivity].
  intros field_value Ht Hr. rewrite (raw_block_bill _ Ht Hr).
  destruct (bill_items_total _ (bill_rows_ok (normalise field_value)))
    as [items ->]. now exists items.
Qed.

Lemma raw_block_bill_report_witness :
  exists items,
    bill_items (Re.findall IGNORECASE_DOTALL pattern_bill_items
                  (normalise room_and_medicine)) = Some items
    /\ extract_and_format_raw_block room_and_medicine
       = Some (bill_report items).
Proof.
  refine (proj1 raw_block_bill_report room_and_medicine _ _).
  - vm_compute. reflexivity.
  - vm_compute. discriminate.
Defined.

(** C7 as stated fails: when the extracted value is all boilerplate, here
    the word Nationality, the field passes the test on the extracted value
    and the value stored after the removal of the boilerplate is empty. *)
Lemma extract_summary_stores_empty_value :
  extract_field "Country: Nationality" [country_pattern] = "Nationality"
  /\ extract_summary "Country: Nationality" country_config
     = Some {[ "Country" := EmptyString ]}.
Proof. vm_compute. auto. Qed.

(** C7 as amended: every entry of the mapping returned by
    [extract_summary] belongs to a field of the configuration whose
    extracted value is not empty and not all white space; the value stored
    is what the repair of broken words, the removal of the boilerplate and
    the prefix of the monetary fields make of the extracted value; it has
    no white space at its ends, so that it is empty or not all white
    space. *)
Theorem extract_summary_values text cfg s field_name v :
  extract_summary text cfg = Some s -> s !! field_name = Some v ->
  (exists patterns,
     List.In (field_name, patterns) (fields cfg)
     /\ blank (extract_field text patterns) = false
     /\ stored_value field_name (extract_field text patterns) = Some v)
  /\ Py.strip v = v
  /\ (v = EmptyString \/ blank v = false).
Proof.
  intros Hs Hk.
  assert (Py.strip v = v) as Ht
    by (eapply produced_trimmed; [repeat eexists|]; eauto).
  split; [|split; [exact Ht|]].
  - destruct (summary_loop_entry _ _ _ _ _ _ Hs Hk) as [H|H]; [|exact H].
    rewrite lookup_empty in H. discriminate.
  - unfold blank. rewrite Ht. destruct v; auto.
Qed.

Lemma extract_summary_values_witness :
  (exists patterns,
     List.In ("Country", patterns) (fields country_config)
     /\ blank (extract_field "Country: India" patterns) = false
     /\ stored_value "Country" (extract_field "Country: India" patterns)
        = Some "India")
  /\ Py.strip "India" = "India"
  /\ ("India" = EmptyString \/ blank "India" = false).
Proof.
  refine (extract_summary_values "Country: India" country_config
            {[ "Country" := "India" ]} "Country" "India" _ _);
    vm_compute; reflexivity.
Defined.

(** C8, on the input where the code departs from it: under a section
    titled Claim Details the field Claim Type starts with the stem of the
    title, so the test that shortens its name comes first in the chain and
    the test that leaves the four fields out is not reached: the field is
    printed as a plain line, with the label Type. *)
Theorem format_summary_prints_claim_type :
  short_field (Some "Claim Details") "Claim Type" = Some "Type"
  /\ format_summary claim_details_config
       {[ "Claim Type" := "Reimbursement Claim" ]}
     = Some (LF ++ "### Claim Details" ++ LF
             ++ "- Type: Reimbursement Claim" ++ LF).
Proof. vm_compute. auto. Qed.

(** C9: [extract_field] is deterministic: on a text and a list of patterns
    the function has a run, which returns [extract_field text patterns], and
    any two runs on the same text and patterns return the same string. *)
Theorem extract_field_deterministic text patterns :
  runs text patterns (extract_field text patterns)
  /\ forall out1 out2,
       runs text patterns out1 -> runs text patterns out2 -> out1 = out2.
Proof.
  split; [apply runs_extract_field|]. intros out1 out2. apply rtc_step_unique.
Qed.

Lemma extract_field_deterministic_witness :
  extract_field "Status: NA" [status_pattern] = "Status: NA".
Proof.
  refine (proj2 (extract_field_deterministic "Status: NA" [status_pattern])
            _ _ (proj1 (extract_field_deterministic _ _)) _).
  unfold runs.
  eapply rtc_l; [apply step_match; vm_compute; reflexivity|].
  eapply rtc_l;
    [apply step_group_continue; vm_compute; reflexivity|].
  eapply rtc_l; [apply step_full_match|].
  vm_compute. apply rtc_refl.
Defined.

(** C10: a string returned by [extract_field] that is not empty has no
    white space at its ends, and each of its white space characters is one
    space that is not next to another white space character; this holds on
    every path that returns. *)
Theorem extract_field_whitespace_normalised text patterns :
  extract_field text patterns <> EmptyString ->
  Py.strip (extract_field text patterns) = extract_field text patterns
  /\ single_spaced false (extract_field text patterns) = true.
Proof.
  intros H. apply extract_field_normal in H. split.
  - now apply normal_trimmed.
  - eapply single_spaced_weaken, normal_single_spaced, H.
Qed.

Lemma extract_field_whitespace_normalised_witness :
  Py.strip (extract_field ("Name:   Asha " ++ LF ++ " Rao  ") [name_pattern])
  = extract_field ("Name:   Asha " ++ LF ++ " Rao  ") [name_pattern]
  /\ single_spaced false
       (extract_field ("Name:   Asha " ++ LF ++ " Rao  ") [name_pattern])
     = true.
Proof.
  refine (extract_field_whitespace_normalised
            ("Name:   Asha " ++ LF ++ " Rao  ") [name_pattern] _).
  vm_compute. discriminate.
Defined.

(** * Lemmas for the further properties *)

(** ** The merge, field by field *)

Lemma merge_item_lookup key value combined k :
  merge_item key value combined !! k
  = if decide (key = k)
    then match combined !! k with
         | Some old => if blank old then Some value else Some old
         | None => Some value
         end
    else combined !! k.
Proof.
  unfold merge_item, blank. destruct (decide (key = k)) as [->|Hne].
  - destruct (combined !! k) as [old|] eqn:E.
    + destruct (negb _); [now rewrite lookup_insert_eq|exact E].
    + now rewrite lookup_insert_eq.
  - destruct (combined !! key) as [old|]; [destruct (negb _)|];
      now rewrite ?lookup_insert_ne by exact Hne.
Qed.

Lemma merge_lookup combined file_summary k :
  merge combined file_summary !! k
  = match file_summary !! k with
    | Some value =>
        match combined !! k with
        | Some old => if blank old then Some value else Some old
        | None => Some value
        end
    | None => combined !! k
    end.
Proof.
  unfold merge. revert k.
  apply (map_fold_weak_ind
           (fun r m => forall k,
              r !! k = match m !! k with
                       | Some value =>
                           match combined !! k with
                           | Some old => if blank old then Some value else Some old
                           | None => Some value
                           end
                       | None => combined !! k
                       end)).
  - intros k. now rewrite lookup_empty.
  - intros i x m r Hi IH k. rewrite merge_item_lookup.
    destruct (decide (i = k)) as [->|Hne].
    + rewrite lookup_insert_eq, IH, Hi. reflexivity.
    + rewrite lookup_insert_ne by exact Hne. apply IH.
Qed.

Lemma merge_empty_l file_summary : merge ∅ file_summary = file_summary.
Proof.
  apply map_eq. intros k. rewrite merge_lookup, lookup_empty.
  now destruct (file_summary !! k).
Qed.

Lemma merge_empty_r combined : merge combined ∅ = combined.
Proof. apply map_eq. intros k. now rewrite merge_lookup, lookup_empty. Qed.

Lemma merge_keys combined file_summary k :
  is_Some (merge combined file_summary !! k)
  <-> is_Some (combined !! k) \/ is_Some (file_summary !! k).
Proof.
  rewrite merge_lookup.
  destruct (file_summary !! k) as [value|], (combined !! k) as [old|];
    try destruct (blank old); split; intros H; eauto;
    destruct H as [H|H]; eauto; destruct H; discriminate.
Qed.

(** The field [k] has no value, or a blank one. *)
Lemma merge_all_hollow combined file_summaries k :
  hollow k combined -> Forall (hollow k) file_summaries ->
  hollow k (merge_all combined file_summaries).
Proof.
  unfold merge_all. intros Hc Hs. revert combined Hc.
  induction Hs as [|s ss Hs _ IH]; intros combined Hc; [exact Hc|].
  cbn [fold_left]. apply IH. unfold hollow in *. rewrite merge_lookup.
  destruct (s !! k) as [value|]; [|exact Hc].
  destruct (combined !! k) as [old|]; [|exact Hs].
  rewrite Hc. exact Hs.
Qed.

Lemma merge_all_first_solid combined before s after k v :
  hollow k combined -> Forall (hollow k) before ->
  s !! k = Some v -> blank v = false ->
  merge_all combined (before ++ s :: after) !! k = Some v.
Proof.
  intros Hc Hb Hs Hv. unfold merge_all. rewrite fold_left_app. cbn [fold_left].
  apply merge_all_kept; [|exact Hv].
  pose proof (merge_all_hollow _ _ _ Hc Hb) as Hh. unfold merge_all, hollow in Hh.
  rewrite merge_lookup, Hs.
  destruct (fold_left merge before combined !! k) as [old|]; [|reflexivity].
  now rewrite Hh.
Qed.

(** ** The amounts of every recogniser convert *)

Lemma amount_char_fl fl c :
  in_set_fl fl [CDigit; CChar ","] c = true ->
  Py.isdecimal c || Ascii.eqb c "," = true.
Proof. destruct fl as [[] []]; each_char c. Qed.

Lemma digit_char_fl fl c :
  in_set_fl fl [CDigit] c = true -> Py.isdecimal c = true.
Proof. destruct fl as [[] []]; each_char c. Qed.

Lemma point_char_fl fl c : eq_char_fl fl "." c = true -> c = "."%char.
Proof. destruct fl as [[] []]; each_char c. Qed.

Lemma comma_char_fl fl c : eq_char_fl fl "," c = true -> c = ","%char.
Proof. destruct fl as [[] []]; each_char c. Qed.

Lemma lang_fraction fl w :
  lang fl (opt (Seq (Lit ".") (upto 1 2 digit))) w ->
  w = EmptyString
  \/ exists ds, w = String "." ds /\ Py.forallb_str Py.isdecimal ds = true.
Proof.
  intros (fs & -> & Hfs & _ & Hn).
  cbn in Hn. destruct Hfs as [|f fs Hf Hfs]; [now left|].
  destruct Hfs; [|cbn in Hn; lia]. right.
  destruct Hf as (w1 & w2 & -> & Hpoint & (ds & -> & Hds & _)).
  destruct w1 as [|c [|]]; cbn in Hpoint; try tauto.
  destruct Hpoint as [Hp _]. apply point_char_fl in Hp as ->.
  exists (concat_lines ds). cbn [concat_lines].
  rewrite str_app_nil_r, app_cons, app_nil. split; [reflexivity|].
  apply (chars_of_class _ _ _ (digit_char_fl fl) Hds).
Qed.

Lemma lang_amount_fl fl w : lang fl amount w -> amount_shape w.
Proof.
  intros (body & frac & -> & (ws & -> & Hws & _) & Hfrac).
  exists (concat_lines ws), frac. split; [reflexivity|].
  split; [apply (chars_of_class _ _ _ (amount_char_fl fl) Hws)|].
  now apply (lang_fraction fl).
Qed.

Lemma lang_digits_commas fl w :
  lang fl (plus (In [CDigit; CChar ","])) w -> amount_shape w.
Proof.
  intros (ws & -> & Hws & _). exists (concat_lines ws), EmptyString.
  rewrite str_app_nil_r. split; [reflexivity|].
  split; [apply (chars_of_class _ _ _ (amount_char_fl fl) Hws)|now left].
Qed.

Lemma money_body_app a b :
  money_body (a ++ b) = money_body a && money_body b.
Proof. apply forallb_str_app. Qed.

Lemma digits_money_body ds :
  Py.forallb_str Py.isdecimal ds = true -> money_body ds = true.
Proof.
  unfold money_body. induction ds as [|c ds IH]; [reflexivity|]. cbn.
  intros H. apply andb_true_iff in H as [-> Hs]. now rewrite IH.
Qed.

Lemma lang_thousands fl ws :
  Forall (lang fl (Seq (Lit ",") (upto 3 3 digit))) ws ->
  money_body (concat_lines ws) = true.
Proof.
  induction 1 as [|w ws Hw _ IH]; [reflexivity|]. cbn [concat_lines].
  rewrite money_body_app, IH, andb_true_r.
  destruct Hw as (w1 & w2 & -> & Hcomma & (ds & -> & Hds & _)).
  destruct w1 as [|c [|]]; cbn in Hcomma; try tauto.
  destruct Hcomma as [Hc _]. apply comma_char_fl in Hc as ->.
  rewrite app_cons, app_nil. unfold money_body. cbn [Py.forallb_str].
  rewrite Ascii.eqb_refl, orb_true_r. cbn [andb].
  apply digits_money_body, (chars_of_class _ _ _ (digit_char_fl fl) Hds).
Qed.

Lemma lang_grouped_amount fl w :
  lang fl (seqs [upto 1 3 digit;
                 star (Seq (Lit ",") (upto 3 3 digit));
                 opt (Seq (Lit ".") (upto 1 2 digit))]) w ->
  amount_shape w.
Proof.
  cbn [seqs fold_right].
  intros (w1 & r1 & -> & (ds & -> & Hds & _)
          & (w2 & r2 & -> & (ts & -> & Hts & _)
             & (w3 & r3 & -> & Hfrac & Heps))).
  cbn in Heps. subst r3. rewrite str_app_nil_r, <- str_app_assoc.
  eexists _, w3. split; [reflexivity|]. split; [|now apply (lang_fraction fl)].
  rewrite money_body_app, (lang_thousands fl ts Hts), andb_true_r.
  apply digits_money_body, (chars_of_class _ _ _ (digit_char_fl fl) Hds).
Qed.

Lemma add_item_total amt line acc :
  priced amt -> is_Some (add_item amt line acc).
Proof.
  intros Hamt. unfold add_item. destruct acc as [formatted total].
  destruct (numeric amt) eqn:En; [|eauto].
  destruct Hamt as [->|Hamt]; [discriminate En|].
  destruct (float_of_amount amt Hamt En) as [a ->]. cbn. eauto.
Qed.

Lemma for_rows_total body rows :
  Forall (fun row => forall acc, is_Some (body row acc)) rows ->
  forall acc, is_Some (for_rows body rows acc).
Proof.
  induction 1 as [|row rows Hrow _ IH]; intros acc; cbn [for_rows]; [eauto|].
  destruct (Hrow acc) as [acc' ->]. cbn. apply IH.
Qed.

Lemma recognise_total body label rows :
  Forall (fun row => forall acc, is_Some (body row acc)) rows ->
  is_Some (recognise body label rows).
Proof.
  intros H. unfold recognise.
  destruct (for_rows_total body rows H (EmptyString, Num.zero)) as [acc ->].
  cbn. eauto.
Qed.

Lemma priced_group text cs i (P : nat -> string -> Prop) :
  (forall j w, group_text text cs j = Some w -> P j w) ->
  (forall w, P i w -> amount_shape w) ->
  priced (unNone (group_text text cs i)).
Proof.
  intros Hc HP. destruct (group_text text cs i) as [w|] eqn:E; [right|now left].
  apply HP, (Hc i), E.
Qed.

Lemma bill_groups_fl :
  groups_respect IGNORECASE_DOTALL (fun i w => i = 3 -> amount_shape w)
    pattern_bill_items 0.
Proof.
  cbn. repeat split; try discriminate. intros w Hw _.
  now apply (lang_amount_fl IGNORECASE_DOTALL).
Qed.

Lemma bill_rows_total text :
  Forall (fun row => forall acc, is_Some (bill_row row acc))
         (findall IGNORECASE_DOTALL pattern_bill_items text).
Proof.
  apply findall_rows. intros p before m Hm.
  destruct (attempt_group _ _ _ _ _ _ _ bill_groups_fl Hm) as (cs & -> & Hc).
  replace (ngroups pattern_bill_items) with 3 by reflexivity.
  cbn [seq map]. intros acc. apply add_item_total.
  apply (priced_group _ _ 3 _ Hc). auto.
Qed.

Lemma estimate_groups :
  groups_respect IGNORECASE (fun i w => i = 3 -> amount_shape w)
    pattern_estimate_lines 0.
Proof.
  cbn. repeat split; try discriminate. intros w Hw _.
  now apply (lang_grouped_amount IGNORECASE).
Qed.

Lemma estimate_rows_total text :
  Forall (fun row => forall acc, is_Some (estimate_row row acc))
         (findall IGNORECASE pattern_estimate_lines text).
Proof.
  apply findall_rows. intros p before m Hm.
  destruct (attempt_group _ _ _ _ _ _ _ estimate_groups Hm) as (cs & -> & Hc).
  replace (ngroups pattern_estimate_lines) with 3 by reflexivity.
  cbn [seq map]. intros acc. apply add_item_total.
  apply (priced_group _ _ 3 _ Hc). auto.
Qed.

Lemma motor_groups :
  groups_respect no_flags (fun i w => i = 4 -> amount_shape w)
    pattern_motor_repair 0.
Proof.
  cbn. repeat split; try discriminate. intros w Hw _.
  now apply (lang_digits_commas no_flags).
Qed.

Lemma motor_rows_total text :
  Forall (fun row => forall acc, is_Some (motor_row row acc))
         (findall no_flags pattern_motor_repair text).
Proof.
  apply findall_rows. intros p before m Hm.
  destruct (attempt_group _ _ _ _ _ _ _ motor_groups Hm) as (cs & -> & Hc).
  replace (ngroups pattern_motor_repair) with 4 by reflexivity.
  cbn [seq map]. intros acc. apply add_item_total.
  apply (priced_group _ _ 4 _ Hc). auto.
Qed.

Lemma pharmacy_groups :
  groups_respect no_flags (fun i w => i = 4 -> amount_shape w)
    pattern_pharmacy_sn_amt 0.
Proof.
  cbn. repeat split; try discriminate. intros w Hw _.
  now apply (lang_amount_fl no_flags).
Qed.

Lemma pharmacy_rows_total text :
  Forall (fun row => forall acc, is_Some (pharmacy_row row acc))
         (findall no_flags pattern_pharmacy_sn_amt text).
Proof.
  apply findall_rows. intros p before m Hm.
  destruct (attempt_group _ _ _ _ _ _ _ pharmacy_groups Hm) as (cs & -> & Hc).
  replace (ngroups pattern_pharmacy_sn_amt) with 4 by reflexivity.
  cbn [seq map]. intros acc. apply add_item_total.
  apply (priced_group _ _ 4 _ Hc). auto.
Qed.

Lemma simple_groups :
  groups_respect no_flags (fun i w => i = 2 -> amount_shape w)
    pattern_simple_desc_amount 0.
Proof.
  cbn. repeat split; try discriminate. intros w Hw _.
  now apply (lang_amount_fl no_flags).
Qed.

Lemma simple_rows_total text :
  Forall (fun row => forall acc, is_Some (simple_row row acc))
         (findall no_flags pattern_simple_desc_amount text).
Proof.
  apply findall_rows. intros p before m Hm.
  destruct (attempt_group _ _ _ _ _ _ _ simple_groups Hm) as (cs & -> & Hc).
  replace (ngroups pattern_simple_desc_amount) with 2 by reflexivity.
  cbn [seq map]. intros acc. apply add_item_total.
  apply (priced_group _ _ 2 _ Hc). auto.
Qed.

Lemma meds_groups :
  groups_respect no_flags (fun i w => i = 3 -> amount_shape w)
    pattern_fallback_meds 0.
Proof.
  cbn. repeat split; try discriminate. intros w Hw _.
  now apply (lang_amount_fl no_flags).
Qed.

Lemma meds_rows_total text :
  Forall (fun row => forall acc, is_Some (meds_row row acc))
         (findall no_flags pattern_fallback_meds text).
Proof.
  apply findall_rows. intros p before m Hm.
  destruct (attempt_group _ _ _ _ _ _ _ meds_groups Hm) as (cs & -> & Hc).
  replace (ngroups pattern_fallback_meds) with 3 by reflexivity.
  cbn [seq map]. intros acc. apply add_item_total.
  apply (priced_group _ _ 3 _ Hc). auto.
Qed.

Lemma recognise_rest_total field_value : is_Some (recognise_rest field_value).
Proof.
  unfold recognise_rest.
  destruct (findall no_flags pattern_motor_repair _) as [|r rs] eqn:E1.
  2: { apply recognise_total. rewrite <- E1. apply motor_rows_total. }
  destruct (findall no_flags pattern_pharmacy_sn_amt _) as [|r rs] eqn:E2.
  2: { apply recognise_total. rewrite <- E2. apply pharmacy_rows_total. }
  destruct (findall no_flags pattern_simple_desc_amount _) as [|r rs] eqn:E3.
  2: { apply recognise_total. rewrite <- E3. apply simple_rows_total. }
  destruct (findall no_flags pattern_fallback_meds _) as [|r rs] eqn:E4.
  2: { apply recognise_total. rewrite <- E4. apply meds_rows_total. }
  destruct (Py.truthy _); eauto.
Qed.

Lemma raw_block_total field_value :
  is_Some (extract_and_format_raw_block field_value).
Proof.
  unfold extract_and_format_raw_block.
  destruct (negb (Py.truthy field_value)); [eauto|].
  destruct (findall IGNORECASE_DOTALL pattern_bill_items _) as [|r rs] eqn:E1.
  2: { apply recognise_total. rewrite <- E1. apply bill_rows_total. }
  destruct (findall IGNORECASE pattern_estimate_lines _) as [|r rs] eqn:E2.
  2: { apply recognise_total. rewrite <- E2. apply estimate_rows_total. }
  apply recognise_rest_total.
Qed.

(** ** The matcher on [\s{2,}] *)

Lemma attempt_space2 text p before rest :
  if Nat.leb 2 (ws_prefix rest)
  then exists m, attempt no_flags ws_run2 text p before rest = Some m
                 /\ m_end m = p + ws_prefix rest
  else attempt no_flags ws_run2 text p before rest = None.
Proof.
  unfold attempt, ws_run2, atleast, space. cbn [matcher times sub_opt].
  destruct rest as [|c rest]; [reflexivity|].
  rewrite step_char_cons, in_set_space.
  cbn [ws_prefix]. destruct (Py.isspace c); [|reflexivity].
  destruct rest as [|d rest]; [reflexivity|].
  rewrite step_char_cons, in_set_space.
  cbn [ws_prefix]. destruct (Py.isspace d); [|reflexivity].
  cbn [rst pos caps Nat.leb].
  edestruct (loop_space (S (Py.len rest))
               {| pos := S (S p); prv := Some d; rst := rest; caps := [] |})
    as (st' & -> & Hp).
  { cbn. pose proof (ws_prefix_le rest). lia. }
  eexists. split; [reflexivity|]. cbn in *. lia.
Qed.

Lemma squeeze2_lone c rest :
  Py.isspace c = true -> ws_prefix rest = 0 ->
  squeeze2 false (String c rest) = String c (squeeze2 false rest).
Proof.
  intros Hc H0. cbn [squeeze2]. rewrite Hc.
  destruct rest as [|d rest]; [reflexivity|].
  cbn [ws_prefix] in H0. destruct (Py.isspace d); [discriminate|reflexivity].
Qed.

Lemma squeeze2_run c rest :
  Py.isspace c = true -> 0 < ws_prefix rest ->
  squeeze2 false (String c rest) = String " " (squeeze2 true rest).
Proof.
  intros Hc H0. cbn [squeeze2]. rewrite Hc.
  destruct rest as [|d rest]; [cbn in H0; lia|].
  cbn [ws_prefix] in H0. destruct (Py.isspace d); [reflexivity|lia].
Qed.

Lemma walk_space2 text rest p before :
  walk no_flags ws_run2 text (fun m out => expand [TLit " "] m ++ out)
       String EmptyString 0 p before rest = squeeze2 false rest
  /\ walk no_flags ws_run2 text (fun m out => expand [TLit " "] m ++ out)
       String EmptyString (ws_prefix rest) p before rest = squeeze2 true rest.
Proof.
  revert p before. induction rest as [|c rest IH]; intros p before.
  - cbn [ws_prefix walk squeeze2].
    pose proof (attempt_space2 text p before EmptyString) as Ha.
    cbn [ws_prefix Nat.leb] in Ha. rewrite Ha. auto.
  - pose proof (attempt_space2 text p before (String c rest)) as Ha.
    destruct (IH (S p) (Some c)) as [IH1 IH2].
    cbn [ws_prefix] in *. destruct (Py.isspace c) eqn:E.
    + split.
      * destruct (ws_prefix rest) as [|n] eqn:En.
        -- cbn [Nat.leb] in Ha. cbn [walk]. rewrite Ha, IH1.
           symmetry. now apply squeeze2_lone.
        -- cbn [Nat.leb] in Ha. destruct Ha as (m & Ha & He).
           cbn [walk]. rewrite Ha.
           assert (Nat.eqb (m_end m) p = false) as -> by (apply Nat.eqb_neq; lia).
           replace (m_end m - p - 1) with (S n) by lia. rewrite IH2.
           symmetry. apply squeeze2_run; [exact E|lia].
      * cbn [walk squeeze2]. rewrite E. exact IH2.
    + cbn [Nat.leb] in Ha. cbn [walk squeeze2]. rewrite E, Ha, IH1. auto.
Qed.

Lemma sub_ws_run2 s : Re.sub no_flags ws_run2 [TLit " "] s = squeeze2 false s.
Proof. apply walk_space2. Qed.

Lemma spaced_apart_squeeze2 s :
  spaced_apart true (squeeze2 true s) = true
  /\ spaced_apart false (squeeze2 false s) = true.
Proof.
  induction s as [|c s [IH1 IH2]]; [auto|]. cbn [squeeze2].
  destruct (Py.isspace c) eqn:E.
  - split; [exact IH1|]. destruct s as [|d s].
    + cbn. now rewrite E.
    + destruct (Py.isspace d) eqn:Ed.
      * cbn [spaced_apart]. change (Py.isspace " ") with true. exact IH1.
      * cbn [spaced_apart]. rewrite E. cbn [negb andb].
        cbn [squeeze2] in *. rewrite Ed in *. cbn [spaced_apart] in *.
        rewrite Ed in *. exact IH2.
  - cbn [spaced_apart]. rewrite E. auto.
Qed.

Lemma spaced_apart_weaken b s :
  spaced_apart b s = true -> spaced_apart false s = true.
Proof.
  destruct s as [|c s]; cbn; [reflexivity|].
  destruct (Py.isspace c); [|exact id].
  rewrite andb_true_iff. now intros [_ ->].
Qed.

Lemma spaced_apart_lstrip b s :
  spaced_apart b s = true ->
  spaced_apart false (Py.lstrip_by Py.isspace s) = true.
Proof.
  revert b. induction s as [|c s IH]; intros b; cbn; [reflexivity|].
  destruct (Py.isspace c) eqn:E.
  - rewrite andb_true_iff. intros [_ H]. eapply IH, H.
  - cbn. rewrite E. exact id.
Qed.

Lemma spaced_apart_rstrip b s :
  spaced_apart b s = true ->
  spaced_apart b (Py.rstrip_by Py.isspace s) = true.
Proof.
  revert b. induction s as [|c s IH]; intros b; cbn [Py.rstrip_by];
    [reflexivity|].
  cbn [spaced_apart]. intros H.
  destruct (Py.rstrip_by Py.isspace s) as [|d t] eqn:Er.
  - destruct (Py.isspace c) eqn:E; [reflexivity|]. cbn. now rewrite E.
  - cbn [spaced_apart] in *. destruct (Py.isspace c).
    + apply andb_true_iff in H as [-> H]. apply (IH true H).
    + apply (IH false H).
Qed.

Lemma spaced_apart_strip s :
  spaced_apart false s = true -> spaced_apart false (Py.strip s) = true.
Proof.
  intros H. apply spaced_apart_rstrip. eapply spaced_apart_lstrip, H.
Qed.

Lemma normalise_spaced_apart field_value :
  spaced_apart false (normalise field_value) = true.
Proof.
  unfold normalise. rewrite sub_ws_run2.
  apply spaced_apart_strip, spaced_apart_squeeze2.
Qed.

Lemma normalise_trimmed field_value :
  Py.strip (normalise field_value) = normalise field_value.
Proof. apply strip_idem. Qed.

(** ** The word of a match *)

Lemma groups_respect_any fl r base :
  groups_respect fl (fun _ _ => True) r base.
Proof.
  revert base. induction r; intros base; cbn [groups_respect]; auto.
Qed.

Lemma take_drop n s : Py.take n s ++ Py.drop n s = s.
Proof.
  revert s. induction n as [|n IH]; intros s; [reflexivity|].
  destruct s as [|c s]; [reflexivity|]. cbn [Py.take Py.drop].
  rewrite app_cons. now rewrite IH.
Qed.

(** A match that starts at [p] spells a word of the pattern, and the text
    from [p] on starts with it. *)
Lemma attempt_word fl r text p before m :
  attempt fl r text p before (Py.drop p text) = Some m ->
  exists w rest,
    Py.drop p text = w ++ rest /\ lang fl r w
    /\ m_start m = p /\ m_end m = p + Py.len w /\ group0 m = w.
Proof.
  unfold attempt.
  destruct (matcher _ _ _ _ _) as [st|] eqn:E; [|discriminate]. intros [= <-].
  destruct (matcher_sound fl text (fun _ _ => True) r 0
              (groups_respect_any fl r 0) _ _ _ E)
    as (st' & w & [= ->] & Ha & Hw & _).
  { split; [reflexivity|]. intros i a b []. }
  pose proof Ha as [Hr Hp]. cbn [rst pos] in Hr, Hp.
  exists w, (rst st). split; [exact Hr|]. split; [exact Hw|].
  cbn [m_start m_end group0 mk_match]. split; [reflexivity|].
  split; [exact Hp|].
  apply (slice_after text {| pos := p; prv := before; rst := Py.drop p text;
                             caps := [] |} w st); [reflexivity|exact Ha].
Qed.

Lemma walk_no_match {A} fl r text (emit : Match -> A -> A) (stop : A) :
  (forall p before, attempt fl r text p before (Py.drop p text) = None) ->
  forall rest skip p before,
    Py.drop p text = rest ->
    walk fl r text emit (fun _ out => out) stop skip p before rest = stop.
Proof.
  intros Hn. induction rest as [|c rest IH]; intros skip p before Hd.
  - destruct skip; cbn [walk]; [|reflexivity].
    rewrite <- Hd, Hn. reflexivity.
  - pose proof (drop_step _ _ _ _ Hd) as Hd'.
    destruct skip; cbn [walk]; [|now apply IH].
    rewrite <- Hd at 1. rewrite Hn. now apply IH.
Qed.

Lemma findall_no_match fl r text :
  (forall p before, attempt fl r text p before (Py.drop p text) = None) ->
  findall fl r text = [].
Proof. intros Hn. now apply walk_no_match. Qed.

(** ** The estimate recogniser wants two white space characters in a row *)

Lemma space_char_fl fl c :
  in_set_fl fl [CSpace] c = true -> Py.isspace c = true.
Proof. destruct fl as [[] []]; each_char c. Qed.

Lemma spaced_apart_drop b n s :
  spaced_apart b s = true -> spaced_apart false (Py.drop n s) = true.
Proof.
  revert b s. induction n as [|n IH]; intros b s H.
  - eapply spaced_apart_weaken, H.
  - destruct s as [|c s]; [reflexivity|]. cbn [Py.drop].
    cbn [spaced_apart] in H. destruct (Py.isspace c).
    + apply andb_true_iff in H as [_ H]. eapply IH, H.
    + eapply IH, H.
Qed.

Lemma spaced_apart_pair b a c d rest :
  spaced_apart b (a ++ String c (String d rest)) = true ->
  Py.isspace c = true -> Py.isspace d = true -> False.
Proof.
  revert b. induction a as [|x a IH]; intros b H Hc Hd.
  - rewrite app_nil in H. cbn [spaced_apart] in H. rewrite Hc, Hd in H.
    cbn in H. rewrite andb_false_r in H. discriminate.
  - rewrite app_cons in H. cbn [spaced_apart] in H.
    destruct (Py.isspace x).
    + apply andb_true_iff in H as [_ H]. eauto.
    + eauto.
Qed.

Lemma lang_estimate_pair w :
  lang IGNORECASE pattern_estimate_lines w ->
  exists a c d rest,
    w = a ++ String c (String d rest)
    /\ Py.isspace c = true /\ Py.isspace d = true.
Proof.
  unfold pattern_estimate_lines. cbn [seqs fold_right].
  intros (w1 & r1 & -> & _ & (w2 & r2 & -> & (ws & -> & Hws & Hlen & _) & _)).
  destruct Hws as [|x ws Hx Hws]; [cbn in Hlen; lia|].
  destruct Hws as [|y ws Hy Hws]; [cbn in Hlen; lia|].
  destruct Hx as (c & -> & Hc), Hy as (d & -> & Hd).
  apply space_char_fl in Hc, Hd.
  exists w1, c, d, (concat_lines ws ++ r2). split; [|auto].
  cbn [concat_lines]. now rewrite !app_cons, !app_nil.
Qed.

Lemma estimate_no_attempt text p before :
  spaced_apart false text = true ->
  attempt IGNORECASE pattern_estimate_lines text p before (Py.drop p text)
  = None.
Proof.
  intros Hs.
  destruct (attempt _ _ _ _ _ _) as [m|] eqn:E; [exfalso|reflexivity].
  destruct (attempt_word _ _ _ _ _ _ E) as (w & rest & Hd & Hw & _).
  destruct (lang_estimate_pair w Hw) as (a & c & d & r & -> & Hc & Hd').
  pose proof (spaced_apart_drop false p text Hs) as H.
  rewrite Hd in H. rewrite str_app_assoc, !app_cons in H.
  exact (spaced_apart_pair _ _ _ _ _ H Hc Hd').
Qed.

(** ** Blank texts *)

Lemma lstrip_all p s :
  Py.forallb_str p s = true -> Py.lstrip_by p s = EmptyString.
Proof.
  induction s as [|c s IH]; [reflexivity|]. cbn.
  intros H. apply andb_true_iff in H as [-> H]. auto.
Qed.

Lemma strip_blank s :
  Py.forallb_str Py.isspace s = true -> Py.strip s = EmptyString.
Proof. intros H. unfold Py.strip, Py.strip_by. now rewrite lstrip_all. Qed.

Lemma strip_nil_blank s :
  Py.strip s = EmptyString -> Py.forallb_str Py.isspace s = true.
Proof.
  unfold Py.strip, Py.strip_by. induction s as [|c s IH]; [reflexivity|].
  cbn [Py.lstrip_by Py.forallb_str]. destruct (Py.isspace c) eqn:E; [exact IH|].
  intros H. destruct (rstrip_head Py.isspace c s E) as [t Ht]. congruence.
Qed.

Lemma forallb_rev_str p acc s :
  Py.forallb_str p (Py.rev_str acc s)
  = Py.forallb_str p acc && Py.forallb_str p s.
Proof.
  revert acc. induction s as [|c s IH]; intros acc; cbn [Py.rev_str].
  - cbn. now rewrite andb_true_r.
  - rewrite IH. cbn [Py.forallb_str].
    destruct (p c), (Py.forallb_str p acc), (Py.forallb_str p s); reflexivity.
Qed.

Lemma splitlines_go_blank n s cur :
  String.length s <= n ->
  Py.forallb_str Py.isspace s = true -> Py.forallb_str Py.isspace cur = true ->
  Forall (fun line => Py.forallb_str Py.isspace line = true)
         (Py.splitlines_go cur s).
Proof.
  revert s cur. induction n as [|n IH]; intros s cur Hn Hs Hcur.
  - destruct s; [|cbn in Hn; lia]. cbn. destruct cur; [constructor|].
    constructor; [|constructor]. now rewrite forallb_rev_str.
  - destruct s as [|c s].
    + cbn. destruct cur; [constructor|].
      constructor; [|constructor]. now rewrite forallb_rev_str.
    + cbn [Py.splitlines_go]. cbn [Py.forallb_str] in Hs.
      apply andb_true_iff in Hs as [Hc Hs]. cbn [String.length] in Hn.
      destruct (Py.islinebreak c).
      * constructor; [now rewrite forallb_rev_str|].
        destruct s as [|d s]; [constructor|].
        destruct (Py.is_code 13 c && Py.is_code 10 d).
        -- cbn [Py.forallb_str] in Hs. apply andb_true_iff in Hs as [_ Hs].
           apply IH; [cbn [String.length] in Hn; lia|exact Hs|reflexivity].
        -- apply IH; [lia|exact Hs|reflexivity].
      * apply IH; [lia|exact Hs|]. cbn [Py.forallb_str]. now rewrite Hc.
Qed.

Lemma join_step_blank st line :
  Py.forallb_str Py.isspace line = true -> join_step st line = st.
Proof.
  intros H. unfold join_step. destruct st as [fixed_lines buffer].
  now rewrite (strip_blank _ H).
Qed.

Lemma fix_lines_blank field_value :
  Py.forallb_str Py.isspace field_value = true -> fix_lines field_value = [].
Proof.
  intros H. unfold fix_lines, Py.splitlines.
  pose proof (splitlines_go_blank _ field_value EmptyString (le_n _) H eq_refl)
    as Hl.
  assert (forall st, fold_left join_step
                       (Py.splitlines_go EmptyString field_value) st = st)
    as ->; [|reflexivity].
  induction Hl as [|line lines Hline _ IH]; intros st; [reflexivity|].
  cbn [fold_left]. now rewrite join_step_blank, IH.
Qed.

Lemma normalise_blank field_value :
  Py.forallb_str Py.isspace field_value = true ->
  normalise field_value = EmptyString.
Proof.
  intros H. unfold normalise. rewrite (fix_lines_blank _ H).
  vm_compute. reflexivity.
Qed.

(** ** The output for a value that no recogniser matches *)

Lemma replace_one x y s :
  Py.replace (String x EmptyString) (String y EmptyString) s = subst_char x y s.
Proof.
  unfold Py.replace. induction s as [|c s IH]; [reflexivity|].
  cbn [Py.replace_go subst_char String.prefix].
  destruct (ascii_dec x c) as [<-|Hne].
  - rewrite Ascii.eqb_refl, prefix_nil. cbn [Py.len String.length Nat.sub].
    rewrite app_cons, app_nil. now rewrite IH.
  - destruct (Ascii.eqb_spec c x) as [->|_]; [congruence|]. now rewrite IH.
Qed.

Lemma one_line_subst s :
  one_line (subst_char (ascii_of_N 13) " " (subst_char (ascii_of_N 10) " " s))
  = true.
Proof.
  unfold one_line. apply negb_true_iff.
  induction s as [|c s IH]; [reflexivity|].
  cbn [subst_char Py.existsb_str]. rewrite IH, orb_false_r.
  destruct c as [[] [] [] [] [] [] [] []]; vm_compute; reflexivity.
Qed.

Lemma subst_char_nonempty x y s :
  s <> EmptyString -> subst_char x y s <> EmptyString.
Proof. destruct s; [congruence|discriminate]. Qed.

(** ** Where the result of [extract_field] comes from *)

Lemma scan_attempt fl r text rest p before m :
  Py.drop p text = rest ->
  scan fl r text p before rest = Some m ->
  exists q b, attempt fl r text q b (Py.drop q text) = Some m.
Proof.
  revert p before. induction rest as [|c rest IH]; intros p before Hd;
    cbn [scan].
  - destruct (attempt _ _ _ _ _ _) as [m'|] eqn:E; [|discriminate].
    intros [= ->]. exists p, before. now rewrite Hd.
  - destruct (attempt _ _ _ _ _ _) as [m'|] eqn:E.
    + intros [= ->]. exists p, before. now rewrite Hd.
    + apply IH. eapply drop_step, Hd.
Qed.

Lemma search_attempt fl r text m :
  search fl r text = Some m ->
  exists q b, attempt fl r text q b (Py.drop q text) = Some m.
Proof. apply scan_attempt. reflexivity. Qed.

Lemma judge_accepts clean_value value :
  judge clean_value = Return value ->
  value = clean_value
  /\ str_in (Py.lower clean_value) stoplist = false
  /\ 3 <= Py.len (Py.strip clean_value)
  /\ (Py.len clean_value < 5 ->
      Py.existsb_str Py.isdigit clean_value
      || Py.existsb_str Py.isalpha clean_value = true).
Proof.
  unfold judge.
  destruct (str_in (Py.lower clean_value) stoplist) eqn:Es; [discriminate|].
  destruct (Nat.ltb_spec (Py.len (Py.strip clean_value)) 3) as [|Hl];
    [discriminate|].
  cbn [orb].
  destruct (String.eqb_spec (Py.lower clean_value) "na") as [Ena|_].
  { rewrite Ena in Es. discriminate Es. }
  destruct (Nat.ltb_spec (Py.len clean_value) 5) as [Hs|Hs]; cbn [andb].
  - destruct (Py.existsb_str Py.isdigit clean_value);
      destruct (Py.existsb_str Py.isalpha clean_value); cbn;
      try discriminate; intros [= <-]; auto.
  - intros [= <-]. repeat split; auto. lia.
Qed.

Lemma clean_group_trimmed group :
  Py.strip (clean_group group) = clean_group group.
Proof. apply strip_idem. Qed.

Lemma scan_groups_some gs value :
  scan_groups gs = Some value ->
  exists group,
    List.In (Some group) gs /\ Py.truthy group = true
    /\ value = clean_group group
    /\ str_in (Py.lower value) stoplist = false
    /\ 3 <= Py.len value
    /\ (Py.len value < 5 ->
        Py.existsb_str Py.isdigit value || Py.existsb_str Py.isalpha value
        = true).
Proof.
  induction gs as [|[group|] gs IH]; cbn [scan_groups]; [discriminate| |].
  - destruct (Py.truthy group) eqn:Et.
    + destruct (judge (clean_group group)) as [|v] eqn:E.
      * intros H. destruct (IH H) as (g & Hin & Hg). exists g.
        split; [now right|exact Hg].
      * intros [= ->]. apply judge_accepts in E as (-> & Hs & Hl & Hc).
        rewrite clean_group_trimmed in Hl. exists group.
        split; [now left|]. auto.
    + intros H. destruct (IH H) as (g & Hin & Hg). exists g.
      split; [now right|exact Hg].
  - intros H. destruct (IH H) as (g & Hin & Hg). exists g.
    split; [now right|exact Hg].
Qed.

Lemma first_match_none text patterns :
  first_match text patterns = None
  <-> Forall (fun q => search IGNORECASE_DOTALL q text = None) patterns.
Proof.
  induction patterns as [|pattern patterns IH]; cbn [first_match].
  - split; [constructor|reflexivity].
  - destruct (search IGNORECASE_DOTALL pattern text) as [m|] eqn:E.
    + split; [discriminate|]. intros H. inversion H; congruence.
    + rewrite IH. split; [now constructor|]. intros H. now inversion H.
Qed.

Lemma first_match_some text patterns m :
  first_match text patterns = Some m
  <-> exists before pattern after,
        patterns = (before ++ pattern :: after)%list
        /\ Forall (fun q => search IGNORECASE_DOTALL q text = None) before
        /\ search IGNORECASE_DOTALL pattern text = Some m.
Proof.
  induction patterns as [|pattern patterns IH]; cbn [first_match].
  - split; [discriminate|]. intros (b & p & a & H & _). now destruct b.
  - destruct (search IGNORECASE_DOTALL pattern text) as [m'|] eqn:E.
    + split.
      * intros [= ->]. exists [], pattern, patterns. auto.
      * intros (b & p & a & H & Hb & Hs). destruct b as [|q b]; cbn in H.
        -- injection H as -> ->. congruence.
        -- injection H as -> ->. inversion Hb; congruence.
    + rewrite IH. split.
      * intros (b & p & a & -> & Hb & Hs). exists (pattern :: b), p, a.
        split; [reflexivity|]. split; [now constructor|exact Hs].
      * intros (b & p & a & H & Hb & Hs). destruct b as [|q b]; cbn in H.
        -- injection H as -> ->. congruence.
        -- injection H as -> ->. inversion Hb; subst. now exists b, p, a.
Qed.

Lemma extract_field_first text patterns :
  extract_field text patterns
  = match first_match text patterns with
    | Some m => on_match m
    | None => EmptyString
    end.
Proof.
  induction patterns as [|pattern patterns IH];
    cbn [extract_field first_match]; [reflexivity|].
  now destruct (search IGNORECASE_DOTALL pattern text).
Qed.

Lemma squeeze_nil b s : squeeze b s = EmptyString -> b = true \/ s = EmptyString.
Proof.
  destruct s as [|c s]; [auto|]. cbn [squeeze].
  destruct (Py.isspace c), b; try discriminate; auto.
Qed.

Lemma collapse_spaces_nil s :
  collapse_spaces s = EmptyString <-> s = EmptyString.
Proof.
  rewrite collapse_spaces_squeeze. split; [|now intros ->].
  intros H. apply squeeze_nil in H as [|]; [discriminate|assumption].
Qed.

Lemma on_match_empty m :
  on_match m = EmptyString
  <-> scan_groups (groups m) = None /\ Py.strip (group0 m) = EmptyString.
Proof.
  unfold on_match. destruct (scan_groups (groups m)) as [value|] eqn:Es.
  - destruct (scan_groups_some _ _ Es) as (g & _ & _ & _ & _ & Hl & _).
    split; [|intros [? _]; discriminate].
    intros ->. cbn in Hl. lia.
  - rewrite collapse_spaces_nil. tauto.
Qed.

(** ** A blank text *)

Lemma forallb_take p n s :
  Py.forallb_str p s = true -> Py.forallb_str p (Py.take n s) = true.
Proof.
  revert n. induction s as [|c s IH]; intros [|n]; cbn; try reflexivity.
  intros H. apply andb_true_iff in H as [-> H]. cbn. apply IH, H.
Qed.

Lemma forallb_drop p n s :
  Py.forallb_str p s = true -> Py.forallb_str p (Py.drop n s) = true.
Proof.
  revert n. induction s as [|c s IH]; intros [|n]; cbn; try reflexivity.
  - exact id.
  - intros H. apply andb_true_iff in H as [_ H]. apply IH, H.
Qed.

Lemma slice_blank text a b :
  Py.forallb_str Py.isspace text = true ->
  Py.forallb_str Py.isspace (slice text a b) = true.
Proof. intros H. now apply forallb_take, forallb_drop. Qed.

Lemma attempt_blank fl r text p before rest m :
  Py.forallb_str Py.isspace text = true ->
  attempt fl r text p before rest = Some m ->
  Py.forallb_str Py.isspace (group0 m) = true
  /\ Forall (fun og => forall g, og = Some g ->
                       Py.forallb_str Py.isspace g = true) (groups m).
Proof.
  intros Hb. unfold attempt.
  destruct (matcher _ _ _ _ _) as [st|]; [|discriminate]. intros [= <-].
  cbn [group0 groups mk_match]. split; [now apply slice_blank|].
  apply List.Forall_forall. intros og Hin g ->.
  apply in_map_iff in Hin as (i & Hg & _).
  unfold group_text in Hg. destruct (find_cap _ _) as [[a b]|]; [|discriminate].
  injection Hg as <-. now apply slice_blank.
Qed.

Lemma clean_group_blank group :
  Py.forallb_str Py.isspace group = true -> clean_group group = EmptyString.
Proof.
  intros H. unfold clean_group. rewrite (strip_blank _ H).
  vm_compute. reflexivity.
Qed.

Lemma scan_groups_blank gs :
  Forall (fun og => forall g, og = Some g ->
                    Py.forallb_str Py.isspace g = true) gs ->
  scan_groups gs = None.
Proof.
  induction 1 as [|[group|] gs Hg _ IH]; cbn [scan_groups]; [reflexivity| |exact IH].
  destruct (Py.truthy group); [|exact IH].
  rewrite (clean_group_blank group (Hg _ eq_refl)).
  change (judge EmptyString) with Continue. exact IH.
Qed.

Lemma extract_field_blank text patterns :
  Py.forallb_str Py.isspace text = true ->
  extract_field text patterns = EmptyString.
Proof.
  intros Hb. rewrite extract_field_first.
  destruct (first_match text patterns) as [m|] eqn:E; [|reflexivity].
  apply first_match_some in E as (b & p & a & _ & _ & Hs).
  destruct (search_attempt _ _ _ _ Hs) as (q & bf & Ha).
  destruct (attempt_blank _ _ _ _ _ _ _ Hb Ha) as [H0 Hg].
  apply on_match_empty.
  split; [now apply scan_groups_blank|now apply strip_blank].
Qed.

Lemma summary_loop_blank text items acc :
  Py.forallb_str Py.isspace text = true ->
  summary_loop text items acc = Some acc.
Proof.
  intros Hb. induction items as [|[field_name patterns] items IH];
    cbn [summary_loop]; [reflexivity|].
  unfold summary_step. rewrite (extract_field_blank _ _ Hb). cbn. exact IH.
Qed.

(** ** [extract_summary], field by field *)

Lemma summary_step_other text acc name ps acc' k :
  summary_step text acc (name, ps) = Some acc' -> k <> name ->
  acc' !! k = acc !! k.
Proof.
  unfold summary_step. destruct (Py.truthy _); [|now intros [= <-]].
  destruct (stored_value _ _) as [v|]; [|discriminate]. cbn.
  intros [= <-] Hne. now rewrite lookup_insert_ne.
Qed.

Lemma summary_step_own text acc name ps acc' :
  summary_step text acc (name, ps) = Some acc' ->
  acc' !! name
  = if blank (extract_field text ps) then acc !! name
    else stored_value name (extract_field text ps).
Proof.
  unfold summary_step, blank. destruct (Py.truthy _); [|now intros [= <-]].
  destruct (stored_value _ _) as [v|]; [|discriminate]. cbn.
  intros [= <-]. now rewrite lookup_insert_eq.
Qed.

Lemma summary_loop_lookup text items acc s :
  summary_loop text items acc = Some s -> List.NoDup (map fst items) ->
  (forall name ps,
     List.In (name, ps) items ->
     s !! name = if blank (extract_field text ps) then acc !! name
                 else stored_value name (extract_field text ps))
  /\ (forall name, ~ List.In name (map fst items) -> s !! name = acc !! name).
Proof.
  revert acc. induction items as [|[n ps0] items IH]; intros acc;
    cbn [summary_loop].
  - intros [= ->] _. split; [intros name ps []|reflexivity].
  - destruct (summary_step text acc (n, ps0)) as [acc'|] eqn:Est;
      [|discriminate]. cbn [mbind option_bind].
    intros Hl Hnd. cbn [map fst] in Hnd.
    inversion Hnd as [|x l Hnotin Hnd']; subst.
    destruct (IH _ Hl Hnd') as [HA HB]. split.
    + intros name ps [[= <- <-]|Hin].
      * rewrite (HB n Hnotin). now apply summary_step_own.
      * rewrite (HA _ _ Hin).
        assert (name <> n) as Hne.
        { intros ->. apply Hnotin.
          change n with (fst (n, ps)). now apply in_map. }
        now rewrite (summary_step_other _ _ _ _ _ _ Est Hne).
    + intros name Hnot. cbn [map fst] in Hnot.
      rewrite HB by (intros H; apply Hnot; now right).
      apply (summary_step_other _ _ _ _ _ _ Est).
      intros ->. apply Hnot. now left.
Qed.

(** ** The order of the fields of the configuration *)

Lemma summary_step_comm text acc x y :
  x.1 <> y.1 ->
  summary_step text acc x ≫= (fun a => summary_step text a y)
  = summary_step text acc y ≫= (fun a => summary_step text a x).
Proof.
  destruct x as [n1 p1], y as [n2 p2]. cbn [fst]. intros Hne.
  unfold summary_step.
  destruct (Py.truthy (Py.strip (extract_field text p1)));
    destruct (Py.truthy (Py.strip (extract_field text p2)));
    destruct (stored_value n1 (extract_field text p1)) as [v1|];
    destruct (stored_value n2 (extract_field text p2)) as [v2|];
    cbn; try reflexivity.
  f_equal. apply insert_insert_ne. congruence.
Qed.

Lemma summary_loop_perm text l l' :
  Permutation l l' -> List.NoDup (map fst l) ->
  forall acc, summary_loop text l acc = summary_loop text l' acc.
Proof.
  induction 1 as [|x l l' Hp IH|x y l|l l' l'' Hp1 IH1 Hp2 IH2];
    intros Hnd acc.
  - reflexivity.
  - cbn [map] in Hnd. inversion Hnd; subst. cbn [summary_loop].
    destruct (summary_step text acc x); cbn; [now apply IH|reflexivity].
  - cbn [map] in Hnd. inversion Hnd as [|? ? Hnotin _]; subst.
    assert (x.1 <> y.1) as Hne.
    { intros Heq. apply Hnotin. left. now symmetry. }
    transitivity ((summary_step text acc y ≫= (fun a => summary_step text a x))
                  ≫= summary_loop text l).
    { cbn [summary_loop]. destruct (summary_step text acc y); reflexivity. }
    rewrite <- (summary_step_comm text acc x y Hne).
    cbn [summary_loop]. destruct (summary_step text acc x); reflexivity.
  - rewrite IH1 by exact Hnd. apply IH2.
    eapply Permutation_NoDup; [|exact Hnd]. now apply Permutation_map.
Qed.

(** ** The rendering of the sections *)





Lemma render_field_shown c1 c2 heading content field :
  shown c1 field = shown c2 field ->
  render_field c1 heading content field = render_field c2 heading content field.
Proof. unfold shown, render_field. now intros ->. Qed.

Lemma render_fields_shown c1 c2 heading fields content :
  (forall f, List.In f fields -> shown c1 f = shown c2 f) ->
  render_fields c1 heading fields content
  = render_fields c2 heading fields content.
Proof.
  revert content. induction fields as [|f fs IH]; intros content H;
    cbn [render_fields]; [reflexivity|].
  rewrite (render_field_shown c1 c2) by (apply H; now left).
  destruct (render_field c2 heading content f); cbn; [|reflexivity].
  apply IH. intros g Hg. apply H. now right.
Qed.

Lemma render_sections_shown c1 c2 sections formatted :
  (forall s f, List.In s sections -> List.In f (section_fields s) ->
               shown c1 f = shown c2 f) ->
  render_sections c1 sections formatted = render_sections c2 sections formatted.
Proof.
  revert formatted. induction sections as [|s ss IH]; intros formatted H;
    cbn [render_sections]; [reflexivity|].
  assert (render_section c1 formatted s = render_section c2 formatted s) as ->.
  { unfold render_section.
    rewrite (render_fields_shown c1 c2) by (intros f Hf; apply (H s); auto;
                                             now left).
    reflexivity. }
  destruct (render_section c2 formatted s); cbn; [|reflexivity].
  apply IH. intros s' f Hs Hf. apply (H s'); auto. now right.
Qed.

Lemma render_field_hidden combined heading content field :
  shown combined field = EmptyString ->
  render_field combined heading content field = Some content.
Proof. unfold shown, render_field. now intros ->. Qed.

Lemma render_fields_hidden combined heading fields content :
  (forall f, List.In f fields -> shown combined f = EmptyString) ->
  render_fields combined heading fields content = Some content.
Proof.
  induction fields as [|f fs IH]; intros H; cbn [render_fields]; [reflexivity|].
  rewrite render_field_hidden by (apply H; now left). cbn.
  apply IH. intros g Hg. apply H. now right.
Qed.

Lemma render_sections_hidden combined sections formatted :
  (forall s f, List.In s sections -> List.In f (section_fields s) ->
               shown combined f = EmptyString) ->
  render_sections combined sections formatted = Some formatted.
Proof.
  induction sections as [|s ss IH]; intros H; cbn [render_sections];
    [reflexivity|].
  unfold render_section at 1.
  rewrite render_fields_hidden by (intros f Hf; apply (H s); auto; now left).
  cbn. apply IH. intros s' f Hs Hf. apply (H s'); auto. now right.
Qed.

Lemma render_section_from combined formatted s :
  render_section combined formatted s
  = (fun out => formatted ++ out) <$> render_section combined EmptyString s.
Proof.
  unfold render_section.
  destruct (render_fields combined (section_title s) (section_fields s) [])
    as [[|l ls]|]; cbn; [now rewrite str_app_nil_r|now rewrite app_nil|reflexivity].
Qed.

Lemma render_sections_from combined sections formatted :
  render_sections combined sections formatted
  = (fun out => formatted ++ out)
      <$> render_sections combined sections EmptyString.
Proof.
  revert formatted. induction sections as [|s ss IH]; intros formatted;
    cbn [render_sections].
  - cbn. now rewrite str_app_nil_r.
  - rewrite (render_section_from combined formatted s).
    destruct (render_section combined EmptyString s) as [a|]; cbn;
      [|reflexivity].
    rewrite (IH (formatted ++ a)), (IH a).
    destruct (render_sections combined ss EmptyString) as [b|]; cbn;
      [|reflexivity].
    now rewrite str_app_assoc.
Qed.

Lemma render_sections_app combined l1 l2 formatted :
  render_sections combined (l1 ++ l2) formatted
  = render_sections combined l1 formatted ≫= render_sections combined l2.
Proof.
  revert formatted. induction l1 as [|s l1 IH]; intros formatted;
    cbn [app render_sections]; [reflexivity|].
  destruct (render_section combined formatted s); cbn; [apply IH|reflexivity].
Qed.

(** ** The slides of [generate_pptx] *)

Lemma linebreak_space c : Py.islinebreak c = true -> Py.isspace c = true.
Proof. each_char c. Qed.

Lemma rev_str_app acc s :
  Py.rev_str acc s = Py.rev_str EmptyString s ++ acc.
Proof.
  revert acc. induction s as [|c s IH]; intros acc; cbn [Py.rev_str].
  - now rewrite app_nil.
  - rewrite (IH (String c acc)), (IH (String c EmptyString)).
    now rewrite str_app_assoc, app_cons, app_nil.
Qed.

Lemma existsb_str_app p a b :
  Py.existsb_str p (a ++ b) = Py.existsb_str p a || Py.existsb_str p b.
Proof.
  induction a as [|c a IH]; [reflexivity|]. rewrite app_cons.
  cbn [Py.existsb_str]. now rewrite IH, orb_assoc.
Qed.

Lemma existsb_rev_str p acc s :
  Py.existsb_str p (Py.rev_str acc s)
  = Py.existsb_str p acc || Py.existsb_str p s.
Proof.
  rewrite rev_str_app, existsb_str_app.
  assert (Py.existsb_str p (Py.rev_str EmptyString s) = Py.existsb_str p s)
    as ->; [|apply orb_comm].
  induction s as [|c s IH]; [reflexivity|]. cbn [Py.rev_str Py.existsb_str].
  rewrite rev_str_app, existsb_str_app, IH. cbn. rewrite orb_false_r.
  apply orb_comm.
Qed.

(** The first line of a text read with a word in hand starts with that
    word. *)
Lemma splitlines_go_head s cur :
  cur <> EmptyString ->
  exists u ls,
    Py.splitlines_go cur s = (Py.rev_str EmptyString cur ++ u) :: ls.
Proof.
  revert cur. induction s as [|d s IH]; intros cur Hne;
    cbn [Py.splitlines_go].
  - exists EmptyString, []. rewrite str_app_nil_r.
    destruct cur; [congruence|reflexivity].
  - destruct (Py.islinebreak d).
    + exists EmptyString. rewrite str_app_nil_r. eauto.
    + destruct (IH (String d cur)) as (u & ls & ->); [discriminate|].
      exists (String d u), ls. f_equal. cbn [Py.rev_str].
      rewrite (rev_str_app (String d EmptyString)).
      now rewrite str_app_assoc, app_cons, app_nil.
Qed.

Lemma splitlines_head c s :
  Py.isspace c = false ->
  exists u ls, Py.splitlines (String c s) = String c u :: ls.
Proof.
  intros Hc. unfold Py.splitlines. cbn [Py.splitlines_go].
  destruct (Py.islinebreak c) eqn:El.
  { apply linebreak_space in El. congruence. }
  destruct (splitlines_go_head s (String c EmptyString)) as (u & ls & ->);
    [discriminate|].
  exists u, ls. reflexivity.
Qed.

Lemma splitlines_go_unbroken n s cur :
  String.length s <= n ->
  Py.existsb_str Py.islinebreak cur = false ->
  Forall (fun line => Py.existsb_str Py.islinebreak line = false)
         (Py.splitlines_go cur s).
Proof.
  revert s cur. induction n as [|n IH]; intros s cur Hn Hcur.
  - destruct s; [|cbn in Hn; lia]. cbn. destruct cur; [constructor|].
    constructor; [|constructor]. now rewrite existsb_rev_str, Hcur.
  - destruct s as [|c s].
    + cbn. destruct cur; [constructor|].
      constructor; [|constructor]. now rewrite existsb_rev_str, Hcur.
    + cbn [Py.splitlines_go]. cbn [String.length] in Hn.
      destruct (Py.islinebreak c) eqn:Ec.
      * constructor; [now rewrite existsb_rev_str, Hcur|].
        destruct s as [|d s]; [constructor|].
        destruct (Py.is_code 13 c && Py.is_code 10 d).
        -- apply IH; [cbn [String.length] in Hn; lia|reflexivity].
        -- apply IH; [lia|reflexivity].
      * apply IH; [lia|]. cbn [Py.existsb_str]. now rewrite Ec.
Qed.

Lemma splitlines_unbroken s :
  Forall (fun line => Py.existsb_str Py.islinebreak line = false)
         (Py.splitlines s).
Proof. now apply (splitlines_go_unbroken (String.length s)). Qed.

Lemma existsb_lstrip p q s :
  Py.existsb_str p s = false -> Py.existsb_str p (Py.lstrip_by q s) = false.
Proof.
  induction s as [|c s IH]; [reflexivity|]. cbn [Py.lstrip_by].
  destruct (q c); [|exact id]. cbn [Py.existsb_str].
  intros H. apply orb_false_iff in H as [_ H]. auto.
Qed.

Lemma existsb_rstrip p q s :
  Py.existsb_str p s = false -> Py.existsb_str p (Py.rstrip_by q s) = false.
Proof.
  induction s as [|c s IH]; [reflexivity|]. cbn [Py.rstrip_by Py.existsb_str].
  intros H. apply orb_false_iff in H as [Hc H]. specialize (IH H).
  destruct (Py.rstrip_by q s) as [|d t].
  - destruct (q c); [reflexivity|]. cbn. now rewrite Hc.
  - cbn [Py.existsb_str] in *. now rewrite Hc, IH.
Qed.

Lemma existsb_strip p s :
  Py.existsb_str p s = false -> Py.existsb_str p (Py.strip s) = false.
Proof. intros H. now apply existsb_rstrip, existsb_lstrip. Qed.

Lemma strip_solid_head c u :
  Py.isspace c = false -> Py.strip (String c u) <> EmptyString.
Proof.
  intros Hc. unfold Py.strip, Py.strip_by. rewrite lstrip_fixed by exact Hc.
  destruct (rstrip_head Py.isspace c u Hc) as [t ->]. discriminate.
Qed.

(** The lines of a chunk that is not blank: there is a first line and it
    is not blank. *)
Lemma chunk_lines section_text :
  Py.truthy (Py.strip section_text) = true ->
  exists first rest,
    Py.splitlines (Py.strip section_text) = first :: rest
    /\ Py.strip first <> EmptyString
    /\ Py.existsb_str Py.islinebreak first = false.
Proof.
  intros Ht. pose proof (splitlines_unbroken (Py.strip section_text)) as Hu.
  destruct (Py.strip section_text) as [|c s] eqn:E; [discriminate|].
  pose proof (strip_head _ _ _ E) as Hc.
  destruct (splitlines_head c s Hc) as (u & ls & Hl). rewrite Hl in *.
  exists (String c u), ls. split; [reflexivity|].
  split; [now apply strip_solid_head|]. now inversion Hu.
Qed.

Lemma titled_slide_tidy first rest :
  Py.strip first <> EmptyString ->
  Py.existsb_str Py.islinebreak first = false ->
  tidy_slide (titled_slide (first :: rest)).
Proof.
  intros Hne Hb. unfold tidy_slide, titled_slide.
  cbn [slide_layout slide_title slide_text tail].
  split; [reflexivity|]. split; [exact Hne|]. split; [apply strip_idem|].
  split; [now apply existsb_strip|]. eexists. split; [reflexivity|].
  apply strip_idem.
Qed.

Lemma chunk_slide_tidy i section_text :
  exists added,
    chunk_slide i section_text = Some added
    /\ match added with Some s => tidy_slide s | None => True end.
Proof.
  unfold chunk_slide.
  destruct (Py.truthy (Py.strip section_text)) eqn:Et; cbn [negb];
    [|now exists None].
  cbv zeta. destruct (chunk_lines _ Et) as (first & rest & -> & Hne & Hb).
  pose proof (titled_slide_tidy first rest Hne Hb) as Ht.
  destruct (Nat.eqb i 0); [|eauto].
  destruct (Py.strip first) eqn:Ef; [congruence|]. cbn [Py.truthy negb]. eauto.
Qed.

Lemma chunk_slides_tidy sections i :
  exists slides,
    chunk_slides i sections = Some slides
    /\ Forall tidy_slide slides /\ length slides <= length sections.
Proof.
  revert i. induction sections as [|section_text rest IH]; intros i;
    cbn [chunk_slides].
  - exists []. split; [reflexivity|]. split; [constructor|reflexivity].
  - destruct (chunk_slide_tidy i section_text) as (added & -> & Ha).
    destruct (IH (S i)) as (slides & -> & Hs & Hl). cbn.
    eexists. split; [reflexivity|]. destruct added as [s|]; cbn [length].
    + split; [now constructor|lia].
    + split; [exact Hs|lia].
Qed.

(** ** The interactive fields in the rendering of a section *)

Lemma interactive_field_cases field :
  str_in field interactive_fields = true ->
  field = "FIR Status" \/ field = "Hospital Type Network"
  \/ field = "Cashless Facility Availed" \/ field = "Claim Type".
Proof.
  unfold str_in, interactive_fields. cbn [existsb].
  destruct (String.eqb_spec field "FIR Status") as [->|_]; [tauto|].
  destruct (String.eqb_spec field "Hospital Type Network") as [->|_]; [tauto|].
  destruct (String.eqb_spec field "Cashless Facility Availed") as [->|_];
    [tauto|].
  destruct (String.eqb_spec field "Claim Type") as [->|_]; [tauto|].
  cbn. discriminate.
Qed.

(** * Further properties of the code *)

(** X1: [extract_and_format_raw_block] never raises.  The conversion
    [float(amt_clean)] is reached only for an amount that a recogniser
    captured and whose digits pass the test of [isdigit], and every such
    amount is a numeral that [float] reads; this holds for the six
    recognisers and for the final fall-back. *)
Theorem raw_block_never_raises field_value :
  is_Some (extract_and_format_raw_block field_value).
Proof. apply raw_block_total. Qed.

(** X2: the text that the recognisers of [extract_and_format_raw_block]
    work on, after the preprocessing of lines 95 to 119, has no white space
    at its ends and no two white space characters next to each other. *)
Theorem normalise_white_space field_value :
  Py.strip (normalise field_value) = normalise field_value
  /\ spaced_apart false (normalise field_value) = true.
Proof. split; [apply normalise_trimmed|apply normalise_spaced_apart]. Qed.

(** X3: the second recogniser of [extract_and_format_raw_block], for the
    lines of an estimate, never finds a row: its pattern asks for two white
    space characters in a row, and the preprocessing has just replaced
    every such run by one space.  The result of the function is that of
    the bill recogniser when it finds rows, and that of the recognisers
    from the third on otherwise. *)
Theorem estimate_recogniser_never_matches field_value :
  Re.findall IGNORECASE pattern_estimate_lines (normalise field_value) = []
  /\ extract_and_format_raw_block field_value
     = if negb (Py.truthy field_value) then Some EmptyString
       else match Re.findall IGNORECASE_DOTALL pattern_bill_items
                    (normalise field_value) with
            | (_ :: _) as rows => recognise bill_row "- Total: Rs. " rows
            | [] => recognise_rest (normalise field_value)
            end.
Proof.
  assert (Re.findall IGNORECASE pattern_estimate_lines (normalise field_value)
          = []) as Hnone.
  { apply findall_no_match. intros p before.
    apply estimate_no_attempt, normalise_spaced_apart. }
  split; [exact Hnone|].
  unfold extract_and_format_raw_block. now rewrite Hnone.
Qed.

(** X4: on a value that is empty or all white space
    [extract_and_format_raw_block] returns the empty string. *)
Theorem raw_block_of_blank field_value :
  Py.strip field_value = EmptyString ->
  extract_and_format_raw_block field_value = Some EmptyString.
Proof.
  intros H. apply strip_nil_blank in H.
  unfold extract_and_format_raw_block.
  destruct (negb (Py.truthy field_value)); [reflexivity|].
  rewrite (normalise_blank _ H). vm_compute. reflexivity.
Qed.

Lemma raw_block_of_blank_witness :
  extract_and_format_raw_block (" " ++ LF ++ "  ") = Some EmptyString.
Proof.
  refine (raw_block_of_blank (" " ++ LF ++ "  ") _). vm_compute. reflexivity.
Defined.

(** X5: when no recogniser finds a row in a value that is not empty,
    [extract_and_format_raw_block] returns one line: a hyphen, a space and
    the text, in which no line feed and no carriage return is left; or the
    empty string when no text is left. *)
Theorem raw_block_fallback_one_line field_value :
  Py.truthy field_value = true -> unrecognised field_value ->
  one_line (fallback_line field_value) = true
  /\ extract_and_format_raw_block field_value
     = Some (if Py.truthy (fallback_line field_value)
             then "- " ++ fallback_line field_value else EmptyString).
Proof.
  intros Ht (H1 & H2 & H3 & H4 & H5 & H6). split.
  - unfold fallback_line, CR, LF. rewrite !replace_one. apply one_line_subst.
  - unfold extract_and_format_raw_block. rewrite Ht. cbn [negb].
    cbv zeta in H1, H2, H3, H4, H5, H6. rewrite H1, H2.
    unfold recognise_rest. rewrite H3, H4, H5, H6. cbv zeta.
    change (Py.replace CR " "
              (Py.replace LF " "
                 (Py.strip (Re.sub IGNORECASE total_repair_cost []
                              (normalise field_value)))))
      with (fallback_line field_value).
    now destruct (Py.truthy (fallback_line field_value)).
Qed.

Lemma raw_block_fallback_one_line_witness :
  one_line (fallback_line two_lines) = true
  /\ extract_and_format_raw_block two_lines
     = Some (if Py.truthy (fallback_line two_lines)
             then "- " ++ fallback_line two_lines else EmptyString).
Proof.
  refine (raw_block_fallback_one_line two_lines _ _).
  - vm_compute. reflexivity.
  - vm_compute. repeat split.
Defined.

(** X6: where the result of [extract_field] comes from.  When no pattern
    matches, it is the empty string.  Otherwise it is decided by the match
    of the first pattern that matches: it is the whole match, stripped and
    with its white space collapsed, when no group gives a value; or it is
    the cleaned value of a group of that match, and then it has three
    characters at least, is not a token of the stop list and, when it has
    fewer than five characters, holds a digit or a letter. *)
Theorem extract_field_source text patterns :
  first_match text patterns = None /\ extract_field text patterns = EmptyString
  \/ exists m,
       first_match text patterns = Some m
       /\ (scan_groups (groups m) = None
           /\ extract_field text patterns
              = collapse_spaces (Py.strip (group0 m))
           \/ exists group,
                List.In (Some group) (groups m)
                /\ extract_field text patterns = clean_group group
                /\ str_in (Py.lower (clean_group group)) stoplist = false
                /\ 3 <= Py.len (clean_group group)
                /\ (Py.len (clean_group group) < 5 ->
                    Py.existsb_str Py.isdigit (clean_group group)
                    || Py.existsb_str Py.isalpha (clean_group group)
                    = true)).
Proof.
  induction patterns as [|pattern patterns IH];
    cbn [extract_field first_match]; [now left|].
  destruct (search IGNORECASE_DOTALL pattern text) as [m|] eqn:E; [|exact IH].
  right. exists m. split; [reflexivity|]. unfold on_match.
  destruct (scan_groups (groups m)) as [value|] eqn:Es; [right|now left].
  destruct (scan_groups_some _ _ Es) as (g & Hin & _ & -> & Hs & Hl & Hc).
  exists g. auto.
Qed.

(** X7: [extract_field] returns the empty string exactly when no pattern
    matches the text, or when the first pattern that matches gives no
    value from its groups and its whole match is empty or all white
    space. *)
Theorem extract_field_returns_empty text patterns :
  extract_field text patterns = EmptyString
  <-> match first_match text patterns with
      | None => True
      | Some m =>
          scan_groups (groups m) = None /\ Py.strip (group0 m) = EmptyString
      end.
Proof.
  rewrite extract_field_first. destruct (first_match text patterns) as [m|].
  - apply on_match_empty.
  - tauto.
Qed.

(** X8: on a text that is empty or all white space [extract_field] returns
    the empty string for every list of patterns, and [extract_summary] the
    empty dictionary for every configuration. *)
Theorem blank_text_gives_nothing text :
  Py.strip text = EmptyString ->
  (forall patterns, extract_field text patterns = EmptyString)
  /\ (forall cfg, extract_summary text cfg = Some ∅).
Proof.
  intros H. apply strip_nil_blank in H. split.
  - intros patterns. now apply extract_field_blank.
  - intros cfg. now apply summary_loop_blank.
Qed.

Lemma blank_text_gives_nothing_witness :
  (forall patterns, extract_field (" " ++ LF) patterns = EmptyString)
  /\ (forall cfg, extract_summary (" " ++ LF) cfg = Some ∅).
Proof.
  refine (blank_text_gives_nothing (" " ++ LF) _). vm_compute. reflexivity.
Defined.

(** X9: the dictionary that [extract_summary] returns, key by key, for a
    configuration whose field names are distinct: a field of the
    configuration is absent when its extracted value is empty or all white
    space, and holds its stored value otherwise; a name that is not a field
    of the configuration is absent. *)
Theorem extract_summary_key_by_key text cfg s :
  extract_summary text cfg = Some s -> List.NoDup (map fst (fields cfg)) ->
  (forall name ps,
     List.In (name, ps) (fields cfg) ->
     s !! name = if blank (extract_field text ps) then None
                 else stored_value name (extract_field text ps))
  /\ (forall name, ~ List.In name (map fst (fields cfg)) -> s !! name = None).
Proof.
  intros Hs Hnd. destruct (summary_loop_lookup _ _ _ _ Hs Hnd) as [HA HB].
  split.
  - intros name ps Hin. rewrite (HA _ _ Hin). now rewrite lookup_empty.
  - intros name Hnot. rewrite (HB _ Hnot). apply lookup_empty.
Qed.

Lemma extract_summary_key_by_key_witness :
  (forall name ps,
     List.In (name, ps) (fields country_config) ->
     ({[ "Country" := "India" ]} : summary) !! name
     = if blank (extract_field "Country: India" ps) then None
       else stored_value name (extract_field "Country: India" ps))
  /\ (forall name, ~ List.In name (map fst (fields country_config)) ->
                   ({[ "Country" := "India" ]} : summary) !! name = None).
Proof.
  refine (extract_summary_key_by_key "Country: India" country_config
            {[ "Country" := "India" ]} _ _).
  - vm_compute. reflexivity.
  - constructor; [intros []|constructor].
Defined.

(** X10: the fields of a configuration are extracted one independently of
    the other: for field names that are distinct, [extract_summary] gives
    the same result, or raises alike, whatever the order of the fields. *)
Theorem extract_summary_any_order text cfg cfg' :
  Permutation (fields cfg) (fields cfg') ->
  List.NoDup (map fst (fields cfg)) ->
  extract_summary text cfg = extract_summary text cfg'.
Proof. intros Hp Hnd. unfold extract_summary. now apply summary_loop_perm. Qed.

Lemma extract_summary_any_order_witness :
  extract_summary "Country: India Claim Amount: 500" country_and_amount
  = extract_summary "Country: India Claim Amount: 500" amount_and_country.
Proof.
  refine (extract_summary_any_order "Country: India Claim Amount: 500"
            country_and_amount amount_and_country _ _).
  - apply perm_swap.
  - constructor; [intros [H|[]]; discriminate H|].
    constructor; [intros []|constructor].
Defined.

(** X12: the merge of a file's summary into the combined summary, key by
    key: a key of the file's summary takes the file's value when the
    combined summary has no value for it or a value that is empty or all
    white space, and keeps the value of the combined summary otherwise; a
    key that the file's summary does not have is left as it is. *)
Theorem merge_key_by_key combined file_summary k :
  merge combined file_summary !! k
  = match file_summary !! k with
    | Some value =>
        match combined !! k with
        | Some old => if blank old then Some value else Some old
        | None => Some value
        end
    | None => combined !! k
    end.
Proof. apply merge_lookup. Qed.

(** X13: merging the summary of the same file a second time changes
    nothing. *)
Theorem merge_twice combined file_summary :
  merge (merge combined file_summary) file_summary
  = merge combined file_summary.
Proof.
  apply map_eq. intros k. rewrite (merge_lookup (merge _ _)), merge_lookup.
  destruct (file_summary !! k) as [value|]; [|reflexivity].
  destruct (combined !! k) as [old|].
  - destruct (blank old) eqn:Eo; [now destruct (blank value)|now rewrite Eo].
  - now destruct (blank value).
Qed.

(** X14: the merge is associative: merging two summaries one after the
    other into the combined summary gives what merging their own merge
    gives. *)
Theorem merge_associative a b c :
  merge (merge a b) c = merge a (merge b c).
Proof.
  apply map_eq. intros k. rewrite !merge_lookup.
  destruct (a !! k) as [x|], (b !! k) as [y|], (c !! k) as [z|];
    try reflexivity;
    try (destruct (blank x) eqn:Ex); try (destruct (blank y) eqn:Ey);
    rewrite ?Ex, ?Ey; reflexivity.
Qed.

(** X15: the merge never drops a key and never makes one up: after the
    summaries of the files have been merged, a key has a value exactly
    when it had one in the combined summary before or has one in the
    summary of some file. *)
Theorem merge_all_keeps_keys combined file_summaries k :
  is_Some (merge_all combined file_summaries !! k)
  <-> is_Some (combined !! k)
      \/ Exists (fun s : summary => is_Some (s !! k)) file_summaries.
Proof.
  unfold merge_all. revert combined.
  induction file_summaries as [|s ss IH]; intros combined; cbn [fold_left].
  - rewrite Exists_nil. tauto.
  - rewrite IH, merge_keys, Exists_cons. tauto.
Qed.

(** X16: the value of a field of the combined summary is that of the
    first file, in the order of the upload, whose summary has a value for
    it that is not empty nor all white space: the values of the files
    before it, absent or blank, do not count, and the files after it do
    not change it. *)
Theorem merge_all_first_value before s after k v :
  Forall (hollow k) before ->
  s !! k = Some v -> blank v = false ->
  merge_all ∅ (before ++ s :: after) !! k = Some v.
Proof.
  intros Hb Hs Hv. apply merge_all_first_solid; auto.
  unfold hollow. now rewrite lookup_empty.
Qed.

Lemma merge_all_first_value_witness :
  merge_all ∅ ([ {[ "Country" := EmptyString ]} ]
               ++ {[ "Country" := "India" ]} :: [ {[ "Country" := "Nepal" ]} ])
    !! "Country" = Some "India".
Proof.
  refine (merge_all_first_value [ {[ "Country" := EmptyString ]} ]
            {[ "Country" := "India" ]} [ {[ "Country" := "Nepal" ]} ]
            "Country" "India" _ _ _).
  - constructor; [vm_compute; reflexivity|constructor].
  - vm_compute. reflexivity.
  - vm_compute. reflexivity.
Defined.


(** X18: the text of the sections depends only on the values, stripped,
    of the fields that the sections list: two combined summaries that give
    the same stripped value to each of these fields, an absent field
    counting as empty, are rendered alike. *)
Theorem format_summary_reads_listed_fields cfg c1 c2 :
  (forall s f, List.In s (summary_sections cfg) ->
               List.In f (section_fields s) -> shown c1 f = shown c2 f) ->
  format_summary cfg c1 = format_summary cfg c2.
Proof. apply render_sections_shown. Qed.

Lemma format_summary_reads_listed_fields_witness :
  format_summary claim_details_config {[ "Claim Type" := "Cashless" ]}
  = format_summary claim_details_config
      (<[ "Name" := "Asha" ]> {[ "Claim Type" := " Cashless " ]}).
Proof.
  refine (format_summary_reads_listed_fields claim_details_config
            {[ "Claim Type" := "Cashless" ]}
            (<[ "Name" := "Asha" ]> {[ "Claim Type" := " Cashless " ]}) _).
  intros s f [<-|[]] [<-|[]]. vm_compute. reflexivity.
Defined.

(** X19: a section whose fields are all absent from the combined summary,
    or empty, or all white space, prints nothing, not even its heading:
    when this is so of every section the text is empty. *)
Theorem format_summary_of_blank_fields cfg combined_summary :
  (forall s f, List.In s (summary_sections cfg) ->
               List.In f (section_fields s) ->
               shown combined_summary f = EmptyString) ->
  format_summary cfg combined_summary = Some EmptyString.
Proof. apply render_sections_hidden. Qed.

Lemma format_summary_of_blank_fields_witness :
  format_summary claim_details_config {[ "Claim Type" := "  " ]}
  = Some EmptyString.
Proof.
  refine (format_summary_of_blank_fields claim_details_config
            {[ "Claim Type" := "  " ]} _).
  intros s f [<-|[]] [<-|[]]. vm_compute. reflexivity.
Defined.

(** X20: the sections are rendered one after the other and one
    independently of the other: the text for a list of sections is the
    text for its first part followed by the text for the rest. *)
Theorem format_summary_section_by_section fs l1 l2 combined_summary :
  format_summary {| fields := fs; summary_sections := l1 ++ l2 |}
    combined_summary
  = a ← format_summary {| fields := fs; summary_sections := l1 |}
          combined_summary;
    b ← format_summary {| fields := fs; summary_sections := l2 |}
          combined_summary;
    Some (a ++ b).
Proof.
  unfold format_summary. cbn [summary_sections].
  rewrite render_sections_app.
  destruct (render_sections combined_summary l1 EmptyString) as [a|]; cbn;
    [|reflexivity].
  rewrite (render_sections_from combined_summary l2 a).
  now destruct (render_sections combined_summary l2 EmptyString).
Qed.

(** X21: [generate_pptx] never raises: the first line that it reads from a
    chunk that is not blank always exists.  Without the library it returns
    [None]; with it, the presentation is the title slide followed by at
    most one slide for each chunk of the text between the marks of a
    section, in order, and each of these slides has a title that is not
    empty, holds no line boundary and no white space at its ends. *)
Theorem generate_pptx_slides_tidy text_content :
  generate_pptx false text_content = Some None
  /\ exists slides,
       generate_pptx true text_content = Some (Some (title_slide :: slides))
       /\ Forall tidy_slide slides
       /\ length slides <= length (split_on "### " text_content).
Proof.
  split; [reflexivity|]. unfold generate_pptx. cbn [negb].
  destruct (chunk_slides_tidy (split_on "### " text_content) 0)
    as (slides & -> & Hs & Hl).
  exists slides. auto.
Qed.

(** X22: in [generate_pptx] the position of a chunk plays no part: the
    test made on the first chunk alone never holds, because the first line
    of a stripped text that is not empty is not blank, and a chunk gives
    the same slide wherever it stands. *)
Theorem chunk_position_plays_no_part i j section_text :
  chunk_slide i section_text = chunk_slide j section_text.
Proof.
  assert (forall n,
            chunk_slide n section_text
            = if negb (Py.truthy (Py.strip section_text)) then Some None
              else Some (Some (titled_slide
                                 (Py.splitlines (Py.strip section_text)))))
    as Hspec.
  { intros n. unfold chunk_slide.
    destruct (Py.truthy (Py.strip section_text)) eqn:Et; [|reflexivity].
    cbn [negb]. cbv zeta.
    destruct (chunk_lines _ Et) as (first & rest & -> & Hne & _).
    destruct (Nat.eqb n 0); [|reflexivity].
    destruct (Py.strip first); [congruence|reflexivity]. }
  now rewrite !Hspec.
Qed.

(** X23: when the four fields that the workflow shows by itself are left
    out of a section.  For such a field every test of the chain that
    shortens the names fails but, possibly, the general one: the field is
    printed, under a shortened name, exactly when the title of the
    section, in lower case and without the word details, followed by a
    space, starts its name in lower case; otherwise, and always under a
    section without title, it is skipped. *)
Theorem interactive_field_left_out heading field :
  str_in field interactive_fields = true ->
  short_field heading field
  = match heading with
    | Some h =>
        if Py.truthy h && Py.startswith (Py.lower field) (heading_stem h ++ " ")
        then Some (cut (heading_stem h) field)
        else None
    | None => None
    end.
Proof.
  intros H.
  destruct (interactive_field_cases field H) as [-> | [-> | [-> | ->]]];
    unfold short_field; cbv zeta;
    repeat match goal with
      | |- context [Py.lower ?s] =>
          lazymatch s with
          | String _ _ =>
              let v := eval vm_compute in (Py.lower s) in
              change (Py.lower s) with v
          end
      end;
    repeat match goal with
      | |- context [Py.startswith ?a ?b] =>
          lazymatch b with
          | String _ _ =>
              let v := eval vm_compute in (Py.startswith a b) in
              change (Py.startswith a b) with v
          end
      | |- context [Py.contains ?a ?b] =>
          let v := eval vm_compute in (Py.contains a b) in
          change (Py.contains a b) with v
      | |- context [String.eqb ?a "policy number"] =>
          let v := eval vm_compute in (String.eqb a "policy number") in
          change (String.eqb a "policy number") with v
      end;
    rewrite ?andb_false_r; cbn [orb];
    rewrite ?andb_false_r;
    destruct heading as [h|]; try reflexivity;
    destruct (Py.truthy h && _); reflexivity.
Qed.

Lemma interactive_field_left_out_witness :
  short_field (Some "Police Information") "FIR Status"
  = if Py.truthy "Police Information"
       && Py.startswith (Py.lower "FIR Status")
            (heading_stem "Police Information" ++ " ")
    then Some (cut (heading_stem "Police Information") "FIR Status")
    else None.
Proof.
  refine (interactive_field_left_out (Some "Police Information") "FIR Status" _).
  vm_compute. reflexivity.
Defined.
